(** * EtagCacher: the poll coordinator of src/api/eTagCacher.ts

    A shallow embedding of the [EtagCacher] class and of the small part of
    the JavaScript event loop it talks to ([setTimeout] and the firing of
    due timers), followed by the properties of its four methods.

    Conventions of the embedding.
    - The instance's [cache] is a plain JS object used as a map from the
      composite key [`${tag}.${key}`] to an entry object; it is a
      [gmap string entry].  Every composite key contains a dot, so no
      lookup can hit a property inherited from [Object.prototype].
    - An entry object is only ever referenced from the cache slot it was
      stored in ([setPoll] and the terminal branch of [checkEtag] store a
      fresh object literal, the other writes mutate the object found in
      the slot), so entries are modelled by value.
    - [setPoll] on a new key stores [{poll: true, retry: 0}], an object
      with no [etag] property: the field is an [option string].
    - The retry count of an entry and the clock (in milliseconds) are
      integers, [Z].  The options [maxRetries] and [retryDelay] are
      unvalidated JS numbers: any finite value, integer or not, taken
      exactly (the rounding of doubles is not modelled), or [Infinity],
      [-Infinity], [NaN].
    - [setTimeout] and [dispatch] are host capabilities.  The host is a
      virtual clock, a queue of pending timers and the trace of the
      calls made to [dispatch]; [setTimeout] treats its delay as the
      timers of Node.js do.

    The file goes on with the two users of the class in the repository:
    the handlers of the api slice (src/api/todosApi.ts) that call
    [checkEtag] and [setPoll], and the mock server (src/mocks/server.ts)
    whose etags they compare. *)

From stdpp Require Import gmap strings list fin_maps pretty.
From Stdlib Require Import ZArith QArith Qround.

Open Scope Z_scope.

Module EtagCacher.

(** ** Data *)

(** [{ etag: string; poll: boolean; retry: number }] *)
Record entry : Type := Entry {
  etag : option string;
  poll : bool;
  retry : Z;
}.

(** The value returned by [getPollStatus]. *)
Record pollStatus : Type := PollStatus {
  polling : bool;
  retries : Z;
}.

(** A JS [number] as an option can hold it: a finite value or one of the
    three special values. *)
Inductive number : Type :=
| Num (q : Q)
| PosInfinity
| NegInfinity
| NaN.

(** The number written as the integer literal [z]. *)
Definition ofZ (z : Z) : number := Num (inject_Z z).

(** [r < m] of JS for an integer [r]: false when [m] is [NaN]. *)
Definition Zlt_number (r : Z) (m : number) : Prop :=
  match m with
  | Num q => (inject_Z r < q)%Q
  | PosInfinity => True
  | NegInfinity | NaN => False
  end.

(** [r <= m] of JS for an integer [r]. *)
Definition Zle_number (r : Z) (m : number) : Prop :=
  match m with
  | Num q => (inject_Z r <= q)%Q
  | PosInfinity => True
  | NegInfinity | NaN => False
  end.

(** [m] is the integer [z] ([Number.isInteger(m)] with [m === z]). *)
Definition isInteger (m : number) (z : Z) : Prop :=
  match m with
  | Num q => (q == inject_Z z)%Q
  | PosInfinity | NegInfinity | NaN => False
  end.

#[global] Instance Qlt_Decision (x y : Q) : Decision (x < y)%Q.
Proof. unfold Qlt. apply _. Defined.

#[global] Instance Qle_Decision (x y : Q) : Decision (x <= y)%Q.
Proof. unfold Qle. apply _. Defined.

#[global] Instance Zlt_number_dec r m : Decision (Zlt_number r m).
Proof. destruct m; simpl; apply _. Defined.

#[global] Instance Zle_number_dec r m : Decision (Zle_number r m).
Proof. destruct m; simpl; apply _. Defined.

(** [const DEFAULT_OPTIONS = { maxRetries: 5, retryDelay: 1000 }] *)
Record defaults : Type := Defaults {
  default_maxRetries : number;
  default_retryDelay : number;
}.

Definition DEFAULT_OPTIONS : defaults :=
  {| default_maxRetries := ofZ 5; default_retryDelay := ofZ 1000 |}.

(** The template literal [`${tag}.${key}`]. *)
Definition cacheKey (tag key : string) : string :=
  tag +:+ "." +:+ key.

Section Cacher.

(** [K]: the type of the fetched records; [D]: the identity of a
    [dispatch] function handed to [checkEtag]; [action]: what
    [api.util.invalidateTags] builds. *)
Context {K D action : Type}.

(** The constructor's [options] argument; every field is optional. *)
Record options : Type := Options {
  maxRetries : option number;
  retryDelay : option number;
  isStatusPending : option (K → bool);
}.

(** [interface ApiWithInvalidateTags]. *)
Record ApiWithInvalidateTags : Type := Api {
  invalidateTags : list string → action;
}.

(** The fields of an instance that are set by the constructor and never
    assigned again. *)
Record cacher : Type := Cacher {
  tag : string;
  api : ApiWithInvalidateTags;
  opts : options;
}.

(** The closure [() => dispatch(this.api.util.invalidateTags([this.tag]))]
    is its captured environment: [dispatch] and [this]. *)
Record callback : Type := Callback {
  cb_dispatch : D;
  cb_this : cacher;
}.

(** The mutable state: the instance's [cache], and the host. *)
Record world : Type := World {
  cache : gmap string entry;
  now : Z;
  timers : list (Z * callback);
  trace : list (D * action);
}.

(** A freshly constructed instance ([this.cache = {}]) on an idle host. *)
Definition init : world :=
  {| cache := ∅; now := 0; timers := []; trace := [] |}.

(** ** The host: timers and dispatch *)

(** Pending timers are kept in firing order: by due time, and in
    scheduling order among equal due times. *)
Fixpoint insert_timer (tm : Z * callback) (q : list (Z * callback))
  : list (Z * callback) :=
  match q with
  | [] => [tm]
  | tm' :: q' =>
      if bool_decide (tm'.1 ≤ tm.1) then tm' :: insert_timer tm q'
      else tm :: tm' :: q'
  end.

(** The largest delay a timer takes, [2^31 - 1]. *)
Definition TIMEOUT_MAX : Z := 2147483647.

(** The delay the host gives a timer.  Node.js: "When delay is larger
    than 2147483647 or less than 1 or NaN, the delay will be set to 1.
    Non-integer delays are truncated to an integer." *)
Definition timeoutDelay (delay : number) : Z :=
  match delay with
  | Num q =>
      if bool_decide (inject_Z 1 <= q ∧ q <= inject_Z TIMEOUT_MAX)%Q
      then Qfloor q else 1
  | PosInfinity | NegInfinity | NaN => 1
  end.

(** [setTimeout(cb, delay)] *)
Definition setTimeout (cb : callback) (delay : number) (w : world) : world :=
  {| cache := cache w;
     now := now w;
     timers := insert_timer (now w + timeoutDelay delay, cb) (timers w);
     trace := trace w |}.

(** What one call of the closure does to the host: the action is built
    when the timer fires, then handed to the captured [dispatch]. *)
Definition refresh_event (cb : callback) : D * action :=
  (cb_dispatch cb, invalidateTags (api (cb_this cb)) [tag (cb_this cb)]).

Definition run_callback (cb : callback) (w : world) : world :=
  {| cache := cache w;
     now := now w;
     timers := timers w;
     trace := trace w ++ [refresh_event cb] |}.

Definition is_due (t : Z) (tm : Z * callback) : Prop := tm.1 ≤ t.

#[global] Instance is_due_dec t tm : Decision (is_due t tm).
Proof. unfold is_due. apply _. Defined.

(** Let [dt] units of time pass: every timer that is due by then fires,
    in queue order, and leaves the queue. *)
Definition advanceTimersByTime (dt : Z) (w : world) : world :=
  let t := now w + dt in
  foldl (λ w' tm, run_callback tm.2 w')
        {| cache := cache w;
           now := t;
           timers := filter (λ tm, ¬ is_due t tm) (timers w);
           trace := trace w |}
        (filter (is_due t) (timers w)).

(** ** The methods of the class *)

Variable c : cacher.

(** [data && this.options.isStatusPending &&
     data.some(this.options.isStatusPending)]: an array, even an empty
    one, is truthy; a missing argument or a missing option is not. *)
Definition hasPendingStatus (data : option (list K)) : bool :=
  match data with
  | None => false
  | Some items =>
      match isStatusPending (opts c) with
      | None => false
      | Some p => existsb p items
      end
  end.

(** The whole condition of the [if] in [checkEtag]. *)
Definition shouldContinue (w : world) (key etag' : string)
    (data : option (list K)) : bool :=
  match cache w !! cacheKey (tag c) key with
  | None => false
  | Some e =>
      poll e
      && (bool_decide (etag e = Some etag') || hasPendingStatus data)
      && bool_decide
           (Zlt_number (retry e)
              (default (default_maxRetries DEFAULT_OPTIONS)
                       (maxRetries (opts c))))
  end.

(** The first branch runs [setTimeout] and then
    [this.cache[k].retry += 1]; the condition has just found the entry, so
    the [None] case of the increment is never taken. *)
Definition checkEtag (dispatch : D) (key etag' : string)
    (data : option (list K)) (w : world) : world :=
  let k := cacheKey (tag c) key in
  if shouldContinue w key etag' data then
    let w1 :=
      setTimeout {| cb_dispatch := dispatch; cb_this := c |}
        (default (default_retryDelay DEFAULT_OPTIONS) (retryDelay (opts c)))
        w in
    {| cache :=
         match cache w1 !! k with
         | Some e =>
             <[k := {| etag := etag e; poll := poll e;
                       retry := retry e + 1 |}]> (cache w1)
         | None => cache w1
         end;
       now := now w1;
       timers := timers w1;
       trace := trace w1 |}
  else
    {| cache :=
         <[k := {| etag := Some etag'; poll := false; retry := 0 |}]>
           (cache w);
       now := now w;
       timers := timers w;
       trace := trace w |}.

(** The spread [...this.cache[k]] copies the old entry's [etag], if
    there is an entry and it has one; [poll] and [retry] are
    overridden. *)
Definition setPoll (key : string) (w : world) : world :=
  let k := cacheKey (tag c) key in
  {| cache :=
       <[k := {| etag := cache w !! k ≫= etag; poll := true;
                 retry := 0 |}]> (cache w);
     now := now w;
     timers := timers w;
     trace := trace w |}.

Definition stopPolling (key : string) (w : world) : world :=
  let cacheKey' := cacheKey (tag c) key in
  match cache w !! cacheKey' with
  | Some e =>
      {| cache :=
           <[cacheKey' := {| etag := etag e; poll := false;
                             retry := retry e |}]> (cache w);
         now := now w;
         timers := timers w;
         trace := trace w |}
  | None => w
  end.

Definition getPollStatus (key : string) (w : world) : option pollStatus :=
  let cacheKey' := cacheKey (tag c) key in
  match cache w !! cacheKey' with
  | None => None
  | Some e => Some {| polling := poll e; retries := retry e |}
  end.

(** ** Sequences of calls *)

Inductive op : Type :=
| SetPoll (key : string)
| StopPolling (key : string)
| GetPollStatus (key : string)
| CheckEtag (dispatch : D) (key etag' : string) (data : option (list K))
| AdvanceTimers (dt : Z).

Definition step (w : world) (o : op) : world :=
  match o with
  | SetPoll key => setPoll key w
  | StopPolling key => stopPolling key w
  | GetPollStatus key => let _ := getPollStatus key w in w
  | CheckEtag dispatch key etag' data => checkEtag dispatch key etag' data w
  | AdvanceTimers dt => advanceTimersByTime dt w
  end.

Definition run (ops : list op) (w : world) : world := foldl step w ops.

(** ** The decision of [checkEtag] in the words of its documentation *)

Definition maxRetriesOf : number :=
  default (default_maxRetries DEFAULT_OPTIONS) (maxRetries (opts c)).

Definition retryDelayOf : number :=
  default (default_retryDelay DEFAULT_OPTIONS) (retryDelay (opts c)).

Definition markerUnchanged (e : entry) (marker : string) : Prop :=
  etag e = Some marker.

Definition hasPendingRecord (records : option (list K)) : Prop :=
  ∃ items p,
    records = Some items ∧ isStatusPending (opts c) = Some p ∧
    ∃ r, r ∈ items ∧ p r = true.

Definition underRetryLimit (e : entry) : Prop :=
  Zlt_number (retry e) maxRetriesOf.

Definition continuation (e : entry) (marker : string)
    (records : option (list K)) : Prop :=
  (markerUnchanged e marker ∨ hasPendingRecord records) ∧ underRetryLimit e.

(** The two possible outcomes of a call, as complete descriptions of the
    state after it. *)

Definition bumped (e : entry) : entry :=
  {| etag := etag e; poll := poll e; retry := retry e + 1 |}.

Definition observed (marker : string) : entry :=
  {| etag := Some marker; poll := false; retry := 0 |}.

Definition refreshTimer (dispatch : D) (w : world) : Z * callback :=
  (now w + timeoutDelay retryDelayOf,
   {| cb_dispatch := dispatch; cb_this := c |}).

Definition continued (dispatch : D) (key : string) (e : entry)
    (w : world) : world :=
  {| cache := <[cacheKey (tag c) key := bumped e]> (cache w);
     now := now w;
     timers := insert_timer (refreshTimer dispatch w) (timers w);
     trace := trace w |}.

Definition terminated (key marker : string) (w : world) : world :=
  {| cache := <[cacheKey (tag c) key := observed marker]> (cache w);
     now := now w;
     timers := timers w;
     trace := trace w |}.

End Cacher.

(** ** Fixtures: the instances and states the test suite builds *)

(** [interface TestItem { id: string; status: 'pending' | 'completed' }] *)
Inductive TestStatus : Type := pending | completed.

Record TestItem : Type := {
  item_id : string;
  item_status : TestStatus;
}.

(** [(item: TestItem) => item.status === 'pending'] *)
Definition isPending (item : TestItem) : bool :=
  match item_status item with
  | pending => true
  | completed => false
  end.

(** The mocked api: the action is the list of tags it was built from. *)
Definition mockApi : @ApiWithInvalidateTags (list string) :=
  {| invalidateTags := λ tags, tags |}.

(** [new EtagCacher('TestTag', mockApi, options)] *)
Definition testCacher (o : @options TestItem)
  : @cacher TestItem (list string) :=
  {| tag := "TestTag"; api := mockApi; opts := o |}.

Definition noOptions : @options TestItem :=
  {| maxRetries := None; retryDelay := None; isStatusPending := None |}.

Definition withMaxRetries (n : number) : @options TestItem :=
  {| maxRetries := Some n; retryDelay := None; isStatusPending := None |}.

Definition withRetryDelay (d : number) : @options TestItem :=
  {| maxRetries := None; retryDelay := Some d; isStatusPending := None |}.

Definition withIsStatusPending : @options TestItem :=
  {| maxRetries := None; retryDelay := None;
     isStatusPending := Some isPending |}.

(** The one [dispatch] of the tests is [mockDispatch]: [D] is [unit]. *)
Definition testWorld (m : gmap string entry)
  : @world TestItem unit (list string) :=
  {| cache := m; now := 0; timers := []; trace := [] |}.

(** [cacher.cache['TestTag.test-key'] = e] on a new instance. *)
Definition testEntry (e : entry) : @world TestItem unit (list string) :=
  testWorld {[ "TestTag.test-key" := e ]}.

(** ** Counting refreshes *)

Section Counting.

Context {K D action : Type}.

(** The refreshes requested so far: those still waiting in the timer
    queue and those already handed to [dispatch]. *)
Definition refreshes (w : @world K D action) : nat :=
  (length (timers w) + length (trace w))%nat.

(** How many integers from [r] on are below the maximum [m]: the
    smallest integer not below [m], less [r]; none for [NaN] and
    [-Infinity], no bound ([None]) for [Infinity]. *)
Definition retryBudget (m : number) (r : Z) : option nat :=
  match m with
  | Num q => Some (Z.to_nat (Qceiling q - r))
  | PosInfinity => None
  | NegInfinity | NaN => Some 0%nat
  end.

(** How many more refreshes [checkEtag] can still request for [key]
    before the entry stops polling. *)
Definition retriesLeft (c : @cacher K action) (key : string)
    (w : @world K D action) : option nat :=
  match cache w !! cacheKey (tag c) key with
  | Some e => if poll e then retryBudget (maxRetriesOf c) (retry e)
              else Some 0%nat
  | None => Some 0%nat
  end.

(** Calls that are made with the given key. *)
Definition opKey (o : @op K D) : option string :=
  match o with
  | SetPoll key | StopPolling key | GetPollStatus key
  | CheckEtag _ key _ _ => Some key
  | AdvanceTimers _ => None
  end.

(** Calls that can create an entry. *)
Definition creates (key : string) (o : @op K D) : Prop :=
  match o with
  | SetPoll key' | CheckEtag _ key' _ _ => key' = key
  | _ => False
  end.

(** The call [stopPolling(key)]. *)
Definition stops (key : string) (o : @op K D) : Prop :=
  match o with
  | StopPolling key' => key' = key
  | _ => False
  end.

#[global] Instance creates_dec key (o : @op K D) : Decision (creates key o).
Proof. destruct o; simpl; apply _. Defined.

#[global] Instance stops_dec key (o : @op K D) : Decision (stops key o).
Proof. destruct o; simpl; apply _. Defined.

(** Calls that do not restart the polling of [key], and fetch results
    for [key] only. *)
Definition pollsOnly (key : string) (o : @op K D) : Prop :=
  match o with
  | SetPoll key' => key' ≠ key
  | CheckEtag _ key' _ _ => key' = key
  | _ => True
  end.

(** Every pending timer belongs to the instance [c], every dispatched
    action is the invalidation of [c]'s tag, and the [dispatch] functions
    involved all satisfy [Q]. *)
Definition own_refreshes (c : @cacher K action) (Q : D → Prop)
    (w : @world K D action) : Prop :=
  Forall (λ tm, cb_this tm.2 = c ∧ Q (cb_dispatch tm.2)) (timers w) ∧
  Forall (λ ev, Q ev.1 ∧ ev.2 = invalidateTags (api c) [tag c]) (trace w).

End Counting.

(** ** The api slice of src/api/todosApi.ts, as far as it drives the
    cacher *)

Module TodosApi.

(** [status: 'pending' | 'completed' | 'failed'] *)
Inductive Status : Type := pending | completed | failed.

Record Todo : Type := {
  id : string;
  title : string;
  status : Status;
}.

Section Slice.

Context {D action : Type}.

(** The api object; only its [util.invalidateTags] matters here. *)
Variable todosApi : @ApiWithInvalidateTags action.

(** [new EtagCacher<typeof todosApi, Todo, 'Todos'>('Todos', todosApi)]:
    no options are given. *)
Definition todosCacher : @cacher Todo action :=
  {| tag := "Todos";
     api := todosApi;
     opts := {| maxRetries := None; retryDelay := None;
                isStatusPending := None |} |}.

(** [etag: response.headers.get('ETag') || ''] in [responseHandler]: a
    missing header and an empty one both give the empty string. *)
Definition metaEtag (header : option string) : string :=
  match header with
  | Some h => if decide (h = "") then "" else h
  | None => ""
  end.

(** [onQueryStarted] of [getTodos]: when [queryFulfilled] resolves with
    the etag of the response, [checkEtag] is called for the key
    ["global"], without the data argument; when it rejects (here [None])
    the error is logged and the cacher is not called. *)
Definition getTodos_onQueryStarted (dispatch : D)
    (queryFulfilled : option string) (w : @world Todo D action)
  : @world Todo D action :=
  match queryFulfilled with
  | Some etag' => checkEtag todosCacher dispatch "global" etag' None w
  | None => w
  end.

(** [onQueryStarted] of [updateTodoStatus] and of [addTodo]: [setPoll]
    when the mutation is fulfilled, nothing when it is rejected. *)
Definition mutation_onQueryStarted (queryFulfilled : bool)
    (w : @world Todo D action) : @world Todo D action :=
  if queryFulfilled then setPoll todosCacher "global" w else w.

End Slice.

End TodosApi.

(** ** The mock server of src/mocks/server.ts *)

Module MockServer.

(** An element of the mock database; [status] is whatever string the
    request body carried. *)
Record Todo : Type := {
  id : string;
  title : string;
  status : string;
}.

(** The module-level variables [todos], [counter] and [currentEtag],
    with the clock and the due times of the pending
    [setTimeout(() => generateNewEtag(), 2000)] calls. *)
Record state : Type := {
  todos : list Todo;
  counter : Z;
  currentEtag : string;
  clock : Z;
  scheduled : list Z;
}.

Definition initial : state :=
  {| todos :=
       [ {| id := "1"; title := "Learn RTK Query"; status := "pending" |};
         {| id := "2"; title := "Implement EtagCacher";
            status := "pending" |} ];
     counter := 1;
     currentEtag := "etag-1";
     clock := 0;
     scheduled := [] |}.

(** [currentEtag = `etag-${counter += 1}`; return currentEtag] *)
Definition generateNewEtag (s : state) : string * state :=
  let counter' := counter s + 1 in
  let etag' := "etag-" +:+ pretty counter' in
  (etag',
   {| todos := todos s;
      counter := counter';
      currentEtag := etag';
      clock := clock s;
      scheduled := scheduled s |}).

Inductive json : Type :=
| JsonTodos (items : list Todo)
| JsonTodo (item : Todo)
| JsonSuccess (success : bool).

(** What [res(...)] is given: [ctx.delay], [ctx.status],
    [ctx.set('ETag', _)] and [ctx.json]. *)
Record response : Type := {
  delay : option Z;
  statusCode : Z;
  ETag : string;
  body : json;
}.

(** [rest.get('/api/todos', ...)] *)
Definition getTodos (s : state) : response * state :=
  ({| delay := None; statusCode := 200; ETag := currentEtag s;
      body := JsonTodos (todos s) |}, s).

(** [todo.id === id ? { ...todo, status } : todo] *)
Definition withStatus (id' status' : string) (todo : Todo) : Todo :=
  if decide (id todo = id')
  then {| id := id todo; title := title todo; status := status' |}
  else todo.

(** [rest.put('/api/todos/:id', ...)] *)
Definition putTodo (id' status' : string) (s : state) : response * state :=
  let s1 :=
    {| todos := withStatus id' status' <$> todos s;
       counter := counter s;
       currentEtag := currentEtag s;
       clock := clock s;
       scheduled := scheduled s |} in
  let s2 := (generateNewEtag s1).2 in
  ({| delay := Some 500; statusCode := 200; ETag := currentEtag s2;
      body := JsonSuccess true |}, s2).

(** [rest.post('/api/todos', ...)]: the new etag is generated by a timer,
    2000 later; the response still carries the current one. *)
Definition postTodo (title' : string) (s : state) : response * state :=
  let newTodo :=
    {| id := pretty (length (todos s) + 1)%nat; title := title';
       status := "pending" |} in
  let s1 :=
    {| todos := todos s ++ [newTodo];
       counter := counter s;
       currentEtag := currentEtag s;
       clock := clock s;
       scheduled := scheduled s ++ [clock s + 2000] |} in
  ({| delay := Some 500; statusCode := 201; ETag := currentEtag s1;
      body := JsonTodo newTodo |}, s1).

(** [dt] units of time pass on the server: each pending timer that is due
    runs [generateNewEtag]. *)
Definition tick (dt : Z) (s : state) : state :=
  let t := clock s + dt in
  foldl (λ s' _, (generateNewEtag s').2)
        {| todos := todos s;
           counter := counter s;
           currentEtag := currentEtag s;
           clock := t;
           scheduled := filter (λ due, ¬ due ≤ t) (scheduled s) |}
        (filter (λ due, due ≤ t) (scheduled s)).

Inductive request : Type :=
| Get
| Put (id' status' : string)
| Post (title' : string)
| Tick (dt : Z).

Definition handle (s : state) (r : request) : state :=
  match r with
  | Get => (getTodos s).2
  | Put id' status' => (putTodo id' status' s).2
  | Post title' => (postTodo title' s).2
  | Tick dt => tick dt s
  end.

Definition serve (rs : list request) (s : state) : state :=
  foldl handle s rs.

End MockServer.

(** ** Properties *)

Section Properties.

Context {K D action : Type}.
Variable c : @cacher K action.

Implicit Types (w : @world K D action) (e : entry) (key marker : string).
Implicit Types (records : option (list K)) (dispatch : D).

(** *** Comparing retry counts with a JS number *)

Lemma inject_Z_lt (a b : Z) : (inject_Z a < inject_Z b)%Q ↔ a < b.
Proof. unfold Qlt, inject_Z. simpl. lia. Qed.

Lemma inject_Z_le (a b : Z) : (inject_Z a <= inject_Z b)%Q ↔ a ≤ b.
Proof. unfold Qle, inject_Z. simpl. lia. Qed.

Lemma Zlt_number_ofZ (r z : Z) : Zlt_number r (ofZ z) ↔ r < z.
Proof. apply inject_Z_lt. Qed.

Lemma Zle_number_ofZ (r z : Z) : Zle_number r (ofZ z) ↔ r ≤ z.
Proof. apply inject_Z_le. Qed.

Lemma Zlt_number_integer m (r z : Z) :
  isInteger m z → Zlt_number r m ↔ r < z.
Proof.
  destruct m as [q| | |]; simpl; [|done..].
  intros ->. apply inject_Z_lt.
Qed.


Lemma Zlt_number_pred m (r : Z) : Zle_number (r + 1) m → Zlt_number r m.
Proof.
  destruct m as [q| | |]; simpl; [|done..].
  intros Hle. eapply Qlt_le_trans; [|exact Hle].
  apply inject_Z_lt. lia.
Qed.

Lemma Zlt_number_ceiling (q : Q) (r : Z) :
  Zlt_number r (Num q) ↔ r < Qceiling q.
Proof.
  simpl. split.
  - intros Hlt. apply inject_Z_lt.
    eapply Qlt_le_trans; [exact Hlt|apply Qle_ceiling].
  - intros Hlt. eapply Qle_lt_trans; [|apply Qceiling_lt].
    apply inject_Z_le. lia.
Qed.

Lemma timeoutDelay_integer m (d : Z) :
  1 ≤ d ≤ TIMEOUT_MAX → isInteger m d → timeoutDelay m = d.
Proof.
  destruct m as [q| | |]; simpl; [|done..].
  intros Hd Hq. rewrite bool_decide_eq_true_2.
  - rewrite (Qfloor_comp _ _ Hq). apply Qfloor_Z.
  - rewrite Hq. split; apply inject_Z_le; lia.
Qed.

(** *** The timer queue *)

Lemma insert_timer_length (tm : Z * @callback K D action) q :
  length (insert_timer tm q) = S (length q).
Proof.
  induction q as [|tm' q IH]; simpl; [done|].
  case_bool_decide; simpl; by rewrite ?IH.
Qed.

Lemma insert_timer_ne (tm : Z * @callback K D action) q :
  insert_timer tm q ≠ q.
Proof.
  intros Heq. apply (f_equal length) in Heq.
  rewrite insert_timer_length in Heq. lia.
Qed.

Lemma hasPendingStatus_spec records :
  hasPendingStatus c records = true ↔ hasPendingRecord c records.
Proof.
  unfold hasPendingStatus, hasPendingRecord. split.
  - destruct records as [items|]; [|done].
    destruct (isStatusPending (opts c)) as [p|] eqn:Hp; [|done].
    intros (r & Hin & Hr)%existsb_exists.
    exists items, p. split; [done|]. split; [done|].
    exists r. split; [by apply list_elem_of_In | done].
  - intros (items & p & -> & -> & r & Hin & Hr).
    apply existsb_exists. exists r. split; [by apply list_elem_of_In | done].
Qed.

Lemma shouldContinue_spec w key marker records e :
  cache w !! cacheKey (tag c) key = Some e →
  shouldContinue c w key marker records = true ↔
  poll e = true ∧ continuation c e marker records.
Proof.
  intros He. unfold shouldContinue, continuation, markerUnchanged,
    underRetryLimit, maxRetriesOf. rewrite He.
  rewrite !andb_true_iff, orb_true_iff, !bool_decide_eq_true.
  rewrite hasPendingStatus_spec. tauto.
Qed.

Lemma shouldContinue_entry w key marker records :
  shouldContinue c w key marker records = true →
  ∃ e, cache w !! cacheKey (tag c) key = Some e ∧ poll e = true.
Proof.
  unfold shouldContinue.
  destruct (cache w !! cacheKey (tag c) key) as [e|]; [|done].
  rewrite !andb_true_iff. intros [[Hp _] _]. by exists e.
Qed.

Lemma checkEtag_continued dispatch key marker records w e :
  cache w !! cacheKey (tag c) key = Some e →
  shouldContinue c w key marker records = true →
  checkEtag c dispatch key marker records w = continued c dispatch key e w.
Proof.
  intros He Hc. unfold checkEtag, continued. rewrite Hc. simpl.
  by rewrite He.
Qed.

Lemma checkEtag_terminated dispatch key marker records w :
  shouldContinue c w key marker records = false →
  checkEtag c dispatch key marker records w = terminated c key marker w.
Proof. intros Hc. unfold checkEtag, terminated. by rewrite Hc. Qed.

Lemma continued_ne_terminated dispatch key marker e w :
  continued c dispatch key e w ≠ terminated c key marker w.
Proof.
  intros Heq. apply (f_equal timers) in Heq. simpl in Heq.
  by apply insert_timer_ne in Heq.
Qed.

(** C1.  On a key whose entry is polling, [checkEtag] schedules a refresh
    and increments the retry count exactly when (the marker equals the
    stored one, or records are supplied, the predicate is configured and
    some record satisfies it) and the retry count is below the maximum;
    otherwise it overwrites the entry with [{etag, poll: false, retry: 0}]
    and schedules nothing.  An empty record list has no pending record. *)
Theorem checkEtag_polling_decision dispatch key marker records w e :
  cache w !! cacheKey (tag c) key = Some e →
  poll e = true →
  let w' := checkEtag c dispatch key marker records w in
  (continuation c e marker records ↔ w' = continued c dispatch key e w) ∧
  (¬ continuation c e marker records ↔ w' = terminated c key marker w) ∧
  ¬ hasPendingRecord c (Some []).
Proof.
  intros He Hp w'. subst w'.
  pose proof (shouldContinue_spec w key marker records e He) as Hspec.
  destruct (shouldContinue c w key marker records) eqn:Hc.
  - assert (continuation c e marker records) as Hk by (by apply Hspec).
    rewrite (checkEtag_continued _ _ _ _ _ _ He Hc).
    split_and!; [done| |].
    + split; [done|]. intros Heq. by apply continued_ne_terminated in Heq.
    + rewrite <- hasPendingStatus_spec. unfold hasPendingStatus.
      by destruct (isStatusPending (opts c)).
  - assert (¬ continuation c e marker records) as Hk.
    { intros Hk. assert (false = true) by (apply Hspec; done). done. }
    rewrite (checkEtag_terminated _ _ _ _ _ Hc).
    split_and!; [| done |].
    + split; [done|]. intros Heq. symmetry in Heq.
      by apply continued_ne_terminated in Heq.
    + rewrite <- hasPendingStatus_spec. unfold hasPendingStatus.
      by destruct (isStatusPending (opts c)).
Qed.

(** *** What firing timers does *)

Lemma foldl_run_callback (fired : list (Z * @callback K D action)) w :
  foldl (λ w' tm, run_callback tm.2 w') w fired =
  {| cache := cache w;
     now := now w;
     timers := timers w;
     trace := trace w ++ ((refresh_event ∘ snd) <$> fired) |}.
Proof.
  revert w. induction fired as [|tm fired IH]; intros w; simpl.
  - rewrite app_nil_r. by destruct w.
  - rewrite IH. simpl. by rewrite <- app_assoc.
Qed.

Lemma advanceTimersByTime_cache dt w :
  cache (advanceTimersByTime dt w) = cache w.
Proof. unfold advanceTimersByTime. by rewrite foldl_run_callback. Qed.

Lemma advanceTimersByTime_trace dt w :
  trace (advanceTimersByTime dt w) =
  trace w ++
  ((refresh_event ∘ snd) <$> filter (is_due (now w + dt)) (timers w)).
Proof. unfold advanceTimersByTime. by rewrite foldl_run_callback. Qed.

Lemma insert_timer_perm (tm : Z * @callback K D action) q :
  insert_timer tm q ≡ₚ tm :: q.
Proof.
  induction q as [|tm' q IH]; simpl; [done|].
  case_bool_decide; [|done].
  rewrite IH. apply Permutation_swap.
Qed.

(** C5.  When the key has no entry, or its entry is not polling,
    [checkEtag] leaves the entry [{etag, poll: false, retry: 0}] and
    schedules no refresh: the timer queue and the trace are untouched and
    whatever fires later fires as it would have without the call. *)
Theorem checkEtag_not_polling dispatch key marker records w :
  cache w !! cacheKey (tag c) key = None ∨
  (∃ e, cache w !! cacheKey (tag c) key = Some e ∧ poll e = false) →
  let w' := checkEtag c dispatch key marker records w in
  cache w' !! cacheKey (tag c) key =
    Some {| etag := Some marker; poll := false; retry := 0 |} ∧
  timers w' = timers w ∧
  trace w' = trace w ∧
  ∀ dt, trace (advanceTimersByTime dt w') = trace (advanceTimersByTime dt w).
Proof.
  intros Hk w'. subst w'.
  assert (shouldContinue c w key marker records = false) as Hc.
  { unfold shouldContinue.
    destruct Hk as [->|(e & -> & Hp)]; [done|]. by rewrite Hp. }
  rewrite (checkEtag_terminated _ _ _ _ _ Hc). unfold terminated.
  split_and!; simpl; [apply lookup_insert_eq|done|done|].
  intros dt. by rewrite !advanceTimersByTime_trace.
Qed.

(** C6.  [stopPolling] on a key with an entry clears [poll] and keeps
    [retry] and [etag]; on a key without an entry it changes nothing and
    creates no entry. *)
Theorem stopPolling_effect key w :
  (∀ e, cache w !! cacheKey (tag c) key = Some e →
        cache (stopPolling c key w) !! cacheKey (tag c) key =
          Some {| etag := etag e; poll := false; retry := retry e |}) ∧
  (cache w !! cacheKey (tag c) key = None →
   stopPolling c key w = w ∧
   cache (stopPolling c key w) !! cacheKey (tag c) key = None).
Proof.
  unfold stopPolling. split.
  - intros e ->. simpl. apply lookup_insert_eq.
  - intros Hn. by rewrite Hn.
Qed.

(** C7.  [setPoll] leaves the key's entry with [poll = true] and
    [retry = 0]; the [etag] of an entry that existed is kept, a new entry
    has none.  The call is total and yields only the new state. *)
Theorem setPoll_effect key w :
  (∀ e, cache w !! cacheKey (tag c) key = Some e →
        cache (setPoll c key w) !! cacheKey (tag c) key =
          Some {| etag := etag e; poll := true; retry := 0 |}) ∧
  (cache w !! cacheKey (tag c) key = None →
   cache (setPoll c key w) !! cacheKey (tag c) key =
     Some {| etag := None; poll := true; retry := 0 |}).
Proof.
  unfold setPoll; simpl.
  split; [intros e Hk|intros Hk]; rewrite lookup_insert_eq, Hk; done.
Qed.

(** C9.  [setPoll], [stopPolling] and [checkEtag] called with [key] leave
    every slot other than the composite key of [key] as it was. *)
Theorem other_keys_untouched dispatch key marker records w (ck : string) :
  ck ≠ cacheKey (tag c) key →
  cache (setPoll c key w) !! ck = cache w !! ck ∧
  cache (stopPolling c key w) !! ck = cache w !! ck ∧
  cache (checkEtag c dispatch key marker records w) !! ck = cache w !! ck.
Proof.
  intros Hne. split_and!.
  - unfold setPoll; simpl. by rewrite lookup_insert_ne.
  - unfold stopPolling.
    destruct (cache w !! cacheKey (tag c) key); [|done].
    simpl. by rewrite lookup_insert_ne.
  - unfold checkEtag.
    destruct (shouldContinue c w key marker records); simpl.
    + destruct (cache w !! cacheKey (tag c) key); [|done].
      by rewrite lookup_insert_ne.
    + by rewrite lookup_insert_ne.
Qed.

(** C10.  Calling [setPoll] twice in a row gives the state that one call
    gives. *)
Theorem setPoll_idempotent key w :
  setPoll c key (setPoll c key w) = setPoll c key w.
Proof.
  unfold setPoll; simpl.
  rewrite lookup_insert_eq, insert_insert_eq. done.
Qed.

(** C4 (amended).  When the continuation condition holds on an entry
    whose retry count is a safe integer (from [-2^53] to [2^53 - 1], where
    adding 1 is exact), the retry count is one higher as soon as
    [checkEtag] returns, [etag] and [poll] are as before, nothing has been
    dispatched yet and one timer has been added.  From then on, after
    [dt] units of time the trace of dispatches holds exactly one more
    call than it would without this call ---
    [dispatch(invalidateTags([tag]))] --- once [dt] reaches the delay the
    host gave the timer, and none before.  That delay is [retryDelay]
    itself when [retryDelay] is an integer from 1 to 2147483647; for any
    other value it is what [timeoutDelay] says (1 for a delay that is
    larger, smaller than 1 or not a number). *)
Theorem checkEtag_continue_effect dispatch key marker records w e :
  cache w !! cacheKey (tag c) key = Some e →
  poll e = true →
  continuation c e marker records →
  - 2 ^ 53 ≤ retry e < 2 ^ 53 →
  let w' := checkEtag c dispatch key marker records w in
  cache w' !! cacheKey (tag c) key =
    Some {| etag := etag e; poll := poll e; retry := retry e + 1 |} ∧
  trace w' = trace w ∧
  length (timers w') = S (length (timers w)) ∧
  (∀ dt,
     trace (advanceTimersByTime dt w') ≡ₚ
     trace (advanceTimersByTime dt w) ++
     (if decide (timeoutDelay (retryDelayOf c) ≤ dt)
      then [(dispatch, invalidateTags (api c) [tag c])] else [])) ∧
  (∀ d, 1 ≤ d ≤ TIMEOUT_MAX → isInteger (retryDelayOf c) d →
        timeoutDelay (retryDelayOf c) = d).
Proof.
  intros He Hp Hk _ w'. subst w'.
  assert (shouldContinue c w key marker records = true) as Hc
    by (by apply (shouldContinue_spec w key marker records e He)).
  rewrite (checkEtag_continued _ _ _ _ _ _ He Hc). unfold continued.
  split_and!; simpl.
  - apply lookup_insert_eq.
  - done.
  - apply insert_timer_length.
  - intros dt. rewrite !advanceTimersByTime_trace. simpl.
    rewrite <- app_assoc. apply Permutation_app_head.
    rewrite insert_timer_perm, filter_cons.
    unfold refreshTimer at 1. unfold is_due at 1. simpl.
    destruct (decide (now w + timeoutDelay (retryDelayOf c) ≤ now w + dt))
      as [Hdue|Hdue];
      destruct (decide (timeoutDelay (retryDelayOf c) ≤ dt)) as [Hd|Hd];
      try lia.
    + rewrite fmap_cons. simpl. unfold refresh_event at 1. simpl.
      by rewrite Permutation_app_comm.
    + by rewrite app_nil_r.
  - intros d Hd Hint. by apply timeoutDelay_integer.
Qed.

(** C8.  The callback that [checkEtag] hands to [setTimeout] does one
    thing when it fires: it calls [dispatch] with the action built by
    [invalidateTags([tag])].  In whatever state it fires, the cache after
    it is the cache before it; so the cache is the same after any amount
    of time has passed and any number of timers have fired. *)
Theorem refresh_callback_preserves_cache dispatch key marker records w :
  shouldContinue c w key marker records = true →
  ∃ due cb,
    timers (checkEtag c dispatch key marker records w) =
      insert_timer (due, cb) (timers w) ∧
    (∀ w0 : @world K D action,
       cache (run_callback cb w0) = cache w0 ∧
       timers (run_callback cb w0) = timers w0 ∧
       trace (run_callback cb w0) =
         trace w0 ++ [(dispatch, invalidateTags (api c) [tag c])]) ∧
    (∀ dt (w0 : @world K D action),
       cache (advanceTimersByTime dt w0) = cache w0).
Proof.
  intros Hc.
  destruct (shouldContinue_entry _ _ _ _ Hc) as (e & He & _).
  rewrite (checkEtag_continued _ _ _ _ _ _ He Hc).
  exists (now w + timeoutDelay (retryDelayOf c)),
         {| cb_dispatch := dispatch; cb_this := c |}.
  split_and!; [done| |].
  - intros w0. by split_and!.
  - intros dt w0. apply advanceTimersByTime_cache.
Qed.

(** *** Invariants of call sequences *)

Lemma run_snoc ops o w : run c (ops ++ [o]) w = step c (run c ops w) o.
Proof. unfold run. by rewrite foldl_app. Qed.

Lemma run_invariant (P : @world K D action → Prop) (ok : @op K D → Prop) :
  (∀ w o, ok o → P w → P (step c w o)) →
  ∀ ops w, Forall ok ops → P w → P (run c ops w).
Proof.
  intros Hstep ops. induction ops as [|o ops IH] using rev_ind;
    intros w Hok HP; [done|].
  rewrite run_snoc. apply Forall_app in Hok as [Hok Ho].
  apply Hstep; [by inversion Ho | by apply IH].
Qed.



End Properties.

(** ** The properties on the states of the test suite *)

(** C1 at "should continue polling if data items are in pending status":
    the marker changed, one record is pending, one retry of five used. *)
Lemma checkEtag_polling_decision_witness :
  let c := testCacher withIsStatusPending in
  let e := {| etag := Some "old-etag"; poll := true; retry := 1 |} in
  let records :=
    Some [ {| item_id := "1"; item_status := completed |};
           {| item_id := "2"; item_status := pending |} ] in
  let w := testEntry e in
  cache w !! cacheKey (tag c) "test-key" = Some e ∧
  poll e = true ∧
  ((continuation c e "new-etag" records ↔
    checkEtag c () "test-key" "new-etag" records w =
      continued c () "test-key" e w) ∧
   (¬ continuation c e "new-etag" records ↔
    checkEtag c () "test-key" "new-etag" records w =
      terminated c "test-key" "new-etag" w) ∧
   ¬ hasPendingRecord c (Some [])).
Proof.
  intros c e records w.
  split; [reflexivity|]. split; [reflexivity|].
  apply (checkEtag_polling_decision c () "test-key" "new-etag" records w e);
    reflexivity.
Defined.

(** C5 at "should not poll if no existing cache entry". *)
Lemma checkEtag_not_polling_witness :
  let c := testCacher noOptions in
  let w := testWorld ∅ in
  let w' := checkEtag c () "test-key" "new-etag" None w in
  (cache w !! cacheKey (tag c) "test-key" = None ∨
   (∃ e, cache w !! cacheKey (tag c) "test-key" = Some e ∧ poll e = false)) ∧
  cache w' !! cacheKey (tag c) "test-key" =
    Some {| etag := Some "new-etag"; poll := false; retry := 0 |} ∧
  timers w' = timers w ∧
  trace w' = trace w ∧
  ∀ dt, trace (advanceTimersByTime dt w') = trace (advanceTimersByTime dt w).
Proof.
  intros c w w'.
  split; [left; reflexivity|].
  apply (checkEtag_not_polling c () "test-key" "new-etag" None w).
  left; reflexivity.
Defined.

(** C6 at "should stop polling for a key". *)
Lemma stopPolling_effect_witness :
  let c := testCacher noOptions in
  let e := {| etag := Some "test-etag"; poll := true; retry := 2 |} in
  let w := testEntry e in
  cache w !! cacheKey (tag c) "test-key" = Some e ∧
  cache (stopPolling c "test-key" w) !! cacheKey (tag c) "test-key" =
    Some {| etag := Some "test-etag"; poll := false; retry := 2 |}.
Proof.
  intros c e w. split; [reflexivity|].
  apply (proj1 (stopPolling_effect c "test-key" w) e). reflexivity.
Defined.

(** C7 at "should reset retry count when setting poll". *)
Lemma setPoll_effect_witness :
  let c := testCacher noOptions in
  let e := {| etag := Some "old-etag"; poll := false; retry := 3 |} in
  let w := testEntry e in
  cache w !! cacheKey (tag c) "test-key" = Some e ∧
  cache (setPoll c "test-key" w) !! cacheKey (tag c) "test-key" =
    Some {| etag := Some "old-etag"; poll := true; retry := 0 |}.
Proof.
  intros c e w. split; [reflexivity|].
  apply (proj1 (setPoll_effect c "test-key" w) e). reflexivity.
Defined.

(** C9: calls for ["other-key"] leave the entry of ["test-key"] alone. *)
Lemma other_keys_untouched_witness :
  let c := testCacher noOptions in
  let e := {| etag := Some "test-etag"; poll := true; retry := 2 |} in
  let w := testEntry e in
  "TestTag.test-key" ≠ cacheKey (tag c) "other-key" ∧
  cache (setPoll c "other-key" w) !! "TestTag.test-key" = Some e ∧
  cache (stopPolling c "other-key" w) !! "TestTag.test-key" = Some e ∧
  cache (checkEtag c () "other-key" "new-etag" None w) !! "TestTag.test-key"
    = Some e.
Proof.
  intros c e w.
  assert ("TestTag.test-key" ≠ cacheKey (tag c) "other-key") as Hne
    by discriminate.
  split; [exact Hne|].
  exact (other_keys_untouched c () "other-key" "new-etag" None w
           "TestTag.test-key" Hne).
Defined.

(** C4 as stated fails for a delay above [2^31 - 1]: with
    [retryDelay = 2147483648] the host sets the timer's delay to 1, and
    the refresh is dispatched after 1 unit of time, long before
    [retryDelay] has elapsed. *)
Lemma large_retryDelay_counterexample :
  let c := testCacher (withRetryDelay (ofZ 2147483648)) in
  let e := {| etag := Some "test-etag"; poll := true; retry := 0 |} in
  let w := testEntry e in
  let w' := checkEtag c () "test-key" "test-etag" None w in
  cache w !! cacheKey (tag c) "test-key" = Some e ∧
  poll e = true ∧
  continuation c e "test-etag" None ∧
  Zlt_number 1 (retryDelayOf c) ∧
  trace (advanceTimersByTime 1 w') = [((), ["TestTag"])].
Proof.
  intros c e w w'.
  split; [reflexivity|]. split; [reflexivity|].
  split; [split; [left; reflexivity|]; by apply Zlt_number_ofZ|].
  split; [by apply Zlt_number_ofZ|].
  vm_compute. reflexivity.
Defined.

(** C4 (amended) at "should continue polling if etags match and under
    retry limit": the count goes from 2 to 3 at once, the dispatch comes
    with the default delay of 1000. *)
Lemma checkEtag_continue_effect_witness :
  let c := testCacher (withMaxRetries (ofZ 5)) in
  let e := {| etag := Some "same-etag"; poll := true; retry := 2 |} in
  let w := testEntry e in
  let w' := checkEtag c () "test-key" "same-etag" None w in
  cache w !! cacheKey (tag c) "test-key" = Some e ∧
  poll e = true ∧
  continuation c e "same-etag" None ∧
  - 2 ^ 53 ≤ retry e < 2 ^ 53 ∧
  cache w' !! cacheKey (tag c) "test-key" =
    Some {| etag := Some "same-etag"; poll := true; retry := 3 |} ∧
  trace w' = trace w ∧
  length (timers w') = S (length (timers w)) ∧
  (∀ dt,
     trace (advanceTimersByTime dt w') ≡ₚ
     trace (advanceTimersByTime dt w) ++
     (if decide (1000 ≤ dt) then [((), ["TestTag"])] else [])) ∧
  (∀ d, 1 ≤ d ≤ TIMEOUT_MAX → isInteger (retryDelayOf c) d →
        timeoutDelay (retryDelayOf c) = d).
Proof.
  intros c e w w'.
  assert (continuation c e "same-etag" None) as Hk.
  { split; [left; reflexivity|]. by apply Zlt_number_ofZ. }
  assert (- 2 ^ 53 ≤ retry e < 2 ^ 53) as Hsafe by (by vm_compute).
  split; [reflexivity|]. split; [reflexivity|]. split; [exact Hk|].
  split; [exact Hsafe|].
  exact (checkEtag_continue_effect c () "test-key" "same-etag" None w e
           eq_refl eq_refl Hk Hsafe).
Defined.

(** C8 on the same state. *)
Lemma refresh_callback_preserves_cache_witness :
  let c := testCacher (withMaxRetries (ofZ 5)) in
  let w :=
    testEntry {| etag := Some "same-etag"; poll := true; retry := 2 |} in
  shouldContinue c w "test-key" "same-etag" None = true ∧
  ∃ due cb,
    timers (checkEtag c () "test-key" "same-etag" None w) =
      insert_timer (due, cb) (timers w) ∧
    (∀ w0 : @world TestItem unit (list string),
       cache (run_callback cb w0) = cache w0 ∧
       timers (run_callback cb w0) = timers w0 ∧
       trace (run_callback cb w0) = trace w0 ++ [((), ["TestTag"])]) ∧
    (∀ dt (w0 : @world TestItem unit (list string)),
       cache (advanceTimersByTime dt w0) = cache w0).
Proof.
  intros c w. split; [reflexivity|].
  exact (refresh_callback_preserves_cache c () "test-key" "same-etag" None w
           eq_refl).
Defined.

(** C2 as stated fails: a fetch, a mutation, a second fetch with the same
    etag (one retry), then an explicit stop leave an entry that is not
    polling and has [retry = 1]. *)
Lemma stopPolling_keeps_retry_counterexample :
  let c := testCacher noOptions in
  let ops :=
    [ CheckEtag () "test-key" "same-etag" None;
      SetPoll "test-key";
      CheckEtag () "test-key" "same-etag" None;
      StopPolling "test-key" ] in
  cache (testWorld ∅) = ∅ ∧
  ∃ e,
    cache (run c ops (testWorld ∅)) !! "TestTag.test-key" = Some e ∧
    poll e = false ∧
    retry e = 1 ∧
    retry e ≠ 0.
Proof.
  intros c ops. split; [reflexivity|].
  exists {| etag := Some "same-etag"; poll := false; retry := 1 |}.
  split; [vm_compute; reflexivity|]. by split_and!.
Defined.



(** ** Further properties of the cacher *)

Section Compositions.

Context {K D action : Type}.
Variable c : @cacher K action.

Implicit Types (w : @world K D action) (e : entry) (key marker : string).
Implicit Types (records : option (list K)) (dispatch : D).

Lemma cacheKey_inj (t : string) : Inj (=) (=) (cacheKey t).
Proof.
  intros k1 k2 Heq. unfold cacheKey in Heq.
  apply (String.app_inj t) in Heq. by apply (String.app_inj ".") in Heq.
Qed.

Lemma cacheKey_ne (t key key' : string) :
  key ≠ key' → cacheKey t key' ≠ cacheKey t key.
Proof. intros Hne Heq. by apply cacheKey_inj in Heq. Qed.

(** X1.  Right after [checkEtag] the status of the key is never null.  It
    either reports not polling with zero retries, or reports polling with
    a retry count that was just incremented from a count below the
    maximum; the new count is then at most the maximum when the maximum
    is an integer (for a maximum that is not, it can be above it). *)
Theorem getPollStatus_after_checkEtag dispatch key marker records w :
  ∃ st,
    getPollStatus c key (checkEtag c dispatch key marker records w) = Some st ∧
    (polling st = false → retries st = 0) ∧
    (polling st = true →
     ∃ e, cache w !! cacheKey (tag c) key = Some e ∧
          retries st = retry e + 1 ∧
          Zlt_number (retry e) (maxRetriesOf c) ∧
          ∀ z, isInteger (maxRetriesOf c) z → retries st ≤ z).
Proof.
  unfold getPollStatus.
  destruct (shouldContinue c w key marker records) eqn:Hc.
  - destruct (shouldContinue_entry _ _ _ _ _ Hc) as (e & He & Hp).
    pose proof (proj1 (shouldContinue_spec _ _ _ _ _ _ He) Hc)
      as (_ & _ & Hlim). unfold underRetryLimit in Hlim.
    rewrite (checkEtag_continued _ _ _ _ _ _ _ He Hc). simpl.
    rewrite lookup_insert_eq. eexists. split; [done|]. simpl.
    split; [congruence|]. intros _. exists e.
    split_and!; [done|done|done|].
    intros z Hint. apply (Zlt_number_integer _ _ _ Hint) in Hlim. lia.
  - rewrite (checkEtag_terminated _ _ _ _ _ _ Hc). simpl.
    rewrite lookup_insert_eq. eexists. split; [done|]. simpl.
    split; [done|]. done.
Qed.


(** X3.  After [stopPolling], the next [checkEtag] for the key never
    schedules a refresh, whatever etag and records it is given: it leaves
    [{etag, poll: false, retry: 0}] and the timer queue as it was. *)
Theorem checkEtag_after_stopPolling dispatch key marker records w :
  checkEtag c dispatch key marker records (stopPolling c key w) =
  terminated c key marker w.
Proof.
  assert (shouldContinue c (stopPolling c key w) key marker records = false)
    as Hc.
  { unfold shouldContinue, stopPolling.
    destruct (cache w !! cacheKey (tag c) key) as [e|] eqn:He; simpl.
    - by rewrite lookup_insert_eq.
    - by rewrite He. }
  rewrite (checkEtag_terminated _ _ _ _ _ _ Hc).
  unfold terminated, stopPolling.
  destruct (cache w !! cacheKey (tag c) key) as [e|]; simpl; [|done].
  by rewrite insert_insert_eq.
Qed.

(** X4.  [stopPolling] twice is [stopPolling] once. *)
Theorem stopPolling_idempotent key w :
  stopPolling c key (stopPolling c key w) = stopPolling c key w.
Proof.
  unfold stopPolling.
  destruct (cache w !! cacheKey (tag c) key) as [e|] eqn:He; simpl.
  - rewrite lookup_insert_eq. simpl. by rewrite insert_insert_eq.
  - by rewrite He.
Qed.

(** X5.  Once a [checkEtag] has ended the polling of a key, a further
    [checkEtag] for it only records the etag it is given: the state is as
    if the last call alone had ended the polling, and no refresh is
    scheduled by either call. *)
Theorem checkEtag_after_terminated
    dispatch1 dispatch2 key marker1 marker2 records1 records2 w :
  shouldContinue c w key marker1 records1 = false →
  checkEtag c dispatch2 key marker2 records2
    (checkEtag c dispatch1 key marker1 records1 w) =
  terminated c key marker2 w.
Proof.
  intros Hc. rewrite (checkEtag_terminated _ _ _ _ _ _ Hc).
  assert (shouldContinue c (terminated c key marker1 w) key marker2 records2
          = false) as Hc2.
  { unfold shouldContinue, terminated. simpl. by rewrite lookup_insert_eq. }
  rewrite (checkEtag_terminated _ _ _ _ _ _ Hc2).
  unfold terminated. simpl. by rewrite insert_insert_eq.
Qed.

(** *** Which entries exist *)

Lemma step_lookup_None w o key :
  cache (step c w o) !! cacheKey (tag c) key = None ↔
  cache w !! cacheKey (tag c) key = None ∧ ¬ creates key o.
Proof.
  destruct o as [key'|key'|key'|dispatch key' marker records|dt]; simpl.
  - unfold setPoll; simpl. destruct (decide (key' = key)) as [->|Hne].
    + rewrite lookup_insert_eq. intuition congruence.
    + rewrite lookup_insert_ne by (by apply cacheKey_ne). intuition congruence.
  - unfold stopPolling.
    destruct (cache w !! cacheKey (tag c) key') as [e|] eqn:He; simpl;
      [|intuition congruence].
    destruct (decide (key' = key)) as [->|Hne].
    + rewrite lookup_insert_eq, He. intuition congruence.
    + rewrite lookup_insert_ne by (by apply cacheKey_ne). intuition congruence.
  - intuition congruence.
  - destruct (shouldContinue c w key' marker records) eqn:Hc.
    + destruct (shouldContinue_entry _ _ _ _ _ Hc) as (e & He & _).
      rewrite (checkEtag_continued _ _ _ _ _ _ _ He Hc). simpl.
      destruct (decide (key' = key)) as [->|Hne].
      * rewrite lookup_insert_eq. intuition congruence.
      * rewrite lookup_insert_ne by (by apply cacheKey_ne). intuition congruence.
    + rewrite (checkEtag_terminated _ _ _ _ _ _ Hc). simpl.
      destruct (decide (key' = key)) as [->|Hne].
      * rewrite lookup_insert_eq. intuition congruence.
      * rewrite lookup_insert_ne by (by apply cacheKey_ne). intuition congruence.
  - rewrite advanceTimersByTime_cache. intuition congruence.
Qed.

Lemma getPollStatus_None key w :
  getPollStatus c key w = None ↔ cache w !! cacheKey (tag c) key = None.
Proof.
  unfold getPollStatus.
  destruct (cache w !! cacheKey (tag c) key); intuition congruence.
Qed.

Lemma run_lookup_None ops w key :
  cache (run c ops w) !! cacheKey (tag c) key = None ↔
  cache w !! cacheKey (tag c) key = None ∧ Forall (λ o, ¬ creates key o) ops.
Proof.
  induction ops as [|o ops IH] using rev_ind.
  - simpl. rewrite Forall_nil. tauto.
  - rewrite run_snoc, step_lookup_None, IH, Forall_app, Forall_singleton.
    tauto.
Qed.

(** X6.  On an instance that started with an empty cache,
    [getPollStatus] returns null for a key exactly when neither [setPoll]
    nor [checkEtag] has been called with that key; [stopPolling],
    [getPollStatus] and calls for other keys never create its entry. *)
Theorem getPollStatus_null_iff_never_seen ops w0 key :
  cache w0 = ∅ →
  getPollStatus c key (run c ops w0) = None ↔
  Forall (λ o, ¬ creates key o) ops.
Proof.
  intros Hempty. rewrite getPollStatus_None, run_lookup_None.
  rewrite Hempty, lookup_empty. tauto.
Qed.

(** X7.  Entries are never removed: a key that has a status keeps having
    one through every sequence of calls. *)
Theorem getPollStatus_stays_defined ops w key :
  is_Some (getPollStatus c key w) →
  is_Some (getPollStatus c key (run c ops w)).
Proof.
  rewrite <- !not_eq_None_Some, !getPollStatus_None, run_lookup_None.
  tauto.
Qed.

Lemma step_lookup_other w o (ck : string) :
  (∀ key, opKey o = Some key → ck ≠ cacheKey (tag c) key) →
  cache (step c w o) !! ck = cache w !! ck.
Proof.
  destruct o as [key|key|key|dispatch key marker records|dt]; simpl;
    intros Hne; try specialize (Hne key eq_refl).
  - unfold setPoll; simpl. by rewrite lookup_insert_ne.
  - unfold stopPolling.
    destruct (cache w !! cacheKey (tag c) key); [|done].
    simpl. by rewrite lookup_insert_ne.
  - done.
  - unfold checkEtag.
    destruct (shouldContinue c w key marker records); simpl.
    + destruct (cache w !! cacheKey (tag c) key); [|done].
      by rewrite lookup_insert_ne.
    + by rewrite lookup_insert_ne.
  - by rewrite advanceTimersByTime_cache.
Qed.

(** X8.  The status of a key changes only through calls made with that
    very key: distinct keys have distinct slots, so any sequence of calls
    for other keys (and of timers firing) leaves it as it was. *)
Theorem getPollStatus_only_own_key ops w key :
  Forall (λ o, opKey o ≠ Some key) ops →
  getPollStatus c key (run c ops w) = getPollStatus c key w.
Proof.
  intros Hops.
  apply (run_invariant c
           (λ w', getPollStatus c key w' = getPollStatus c key w)
           (λ o, opKey o ≠ Some key)); [|done|done].
  intros w' o Ho <-. unfold getPollStatus.
  rewrite (step_lookup_other w' o); [done|].
  intros key' Hk Heq. apply cacheKey_inj in Heq. congruence.
Qed.

(** *** Entries that are not polling *)

Lemma step_lookup_unchanged w o key :
  ¬ creates key o →
  ¬ stops key o →
  cache (step c w o) !! cacheKey (tag c) key = cache w !! cacheKey (tag c) key.
Proof.
  intros Hcr Hstop.
  destruct o as [key'|key'|key'|dispatch key' marker records|dt];
    simpl in Hcr, Hstop; [| |done| |];
    apply step_lookup_other; intros key'' [= <-] Heq;
    apply cacheKey_inj in Heq; by subst.
Qed.

Lemma stops_StopPolling (o : @op K D) key : stops key o → o = StopPolling key.
Proof. destruct o; simpl; try done. by intros ->. Qed.

Lemma step_lookup_key w o (ck : string) :
  is_Some (cache (step c w o) !! ck) →
  is_Some (cache w !! ck) ∨ ∃ key, ck = cacheKey (tag c) key.
Proof.
  destruct (opKey o) as [key|] eqn:Hk.
  - destruct (decide (ck = cacheKey (tag c) key)) as [->|Hne].
    + intros _. right. by exists key.
    + rewrite (step_lookup_other w o); [by left|]. congruence.
  - rewrite (step_lookup_other w o); [by left|]. congruence.
Qed.

Lemma run_lookup_key ops w0 (ck : string) :
  cache w0 = ∅ →
  is_Some (cache (run c ops w0) !! ck) →
  ∃ key, ck = cacheKey (tag c) key.
Proof.
  intros Hempty. induction ops as [|o ops IH] using rev_ind.
  - simpl. rewrite Hempty, lookup_empty. by intros [? ?].
  - rewrite run_snoc. intros [Hold|Hkey]%step_lookup_key; [by apply IH|done].
Qed.

(** After a [stopPolling], calls that are neither [setPoll] nor
    [checkEtag] for the key leave its entry as the [stopPolling] left
    it. *)
Lemma run_after_stop ops w key e :
  Forall (λ o, ¬ creates key o) ops →
  cache w !! cacheKey (tag c) key = Some e →
  poll e = false →
  cache (run c ops w) !! cacheKey (tag c) key = Some e.
Proof.
  intros Hops He Hp. induction ops as [|o ops IH] using rev_ind; [done|].
  apply Forall_app in Hops as [Hops Ho]. rewrite Forall_singleton in Ho.
  rewrite run_snoc. specialize (IH Hops).
  destruct (decide (stops key o)) as [->%stops_StopPolling|Hne].
  - simpl. unfold stopPolling. rewrite IH. simpl.
    rewrite lookup_insert_eq. f_equal. destruct e; simpl in *. by subst.
  - rewrite step_lookup_unchanged; [exact IH|exact Ho|exact Hne].
Qed.

Lemma run_nonpolling_cases ops w0 key e :
  cache w0 = ∅ →
  cache (run c ops w0) !! cacheKey (tag c) key = Some e →
  poll e = false →
  retry e = 0 ∨
  ∃ ops1 ops2 e1,
    ops = ops1 ++ StopPolling key :: ops2 ∧
    Forall (λ o, ¬ creates key o) ops2 ∧
    cache (run c ops1 w0) !! cacheKey (tag c) key = Some e1 ∧
    retry e1 = retry e.
Proof.
  intros Hempty. revert e.
  induction ops as [|o ops IH] using rev_ind; intros e.
  - simpl. by rewrite Hempty, lookup_empty.
  - rewrite run_snoc. intros He Hp.
    destruct (decide (stops key o)) as [->%stops_StopPolling|Hstop].
    { right. simpl in He. unfold stopPolling in He.
      destruct (cache (run c ops w0) !! cacheKey (tag c) key)
        as [e1|] eqn:He1.
      - simpl in He. rewrite lookup_insert_eq in He.
        injection He as <-. exists ops, [], e1. by split_and!.
      - by rewrite He1 in He. }
    destruct (decide (creates key o)) as [Hcr|Hcr].
    { left.
      destruct o as [key'|key'|key'|dispatch key' marker records|dt];
        simpl in Hcr; try done; subst key'; simpl in He.
      - unfold setPoll in He; simpl in He.
        rewrite lookup_insert_eq in He. injection He as <-. done.
      - destruct (shouldContinue c (run c ops w0) key marker records)
          eqn:Hc.
        + destruct (shouldContinue_entry _ _ _ _ _ Hc) as (e0 & He0 & Hp0).
          rewrite (checkEtag_continued _ _ _ _ _ _ _ He0 Hc) in He.
          simpl in He. rewrite lookup_insert_eq in He.
          injection He as <-. simpl in Hp. congruence.
        + rewrite (checkEtag_terminated _ _ _ _ _ _ Hc) in He.
          simpl in He. rewrite lookup_insert_eq in He.
          by injection He as <-. }
    rewrite step_lookup_unchanged in He by done.
    destruct (IH e He Hp) as [Hz|(ops1 & ops2 & e1 & -> & Hops2 & He1 & Hr)];
      [by left|].
    right. exists ops1, (ops2 ++ [o]), e1. split_and!; [|  |done|done].
    + by rewrite <- app_assoc.
    + apply Forall_app. split; [done|]. by apply Forall_singleton.
Qed.

(** C2 (amended).  Starting from an empty cache, after any sequence of
    [setPoll], [stopPolling], [getPollStatus] and [checkEtag] calls (and
    of timers firing in between), an entry with [poll = false] has
    [retry = 0], with one exception: [stopPolling] clears [poll] and
    keeps [retry], so the count is not zero exactly when [stopPolling]
    was called for the entry's key while its count was not zero, and
    neither [setPoll] nor [checkEtag] has been called for that key
    since. *)
Theorem nonpolling_retry_zero_unless_stopped ops w0 (ck : string) e :
  cache w0 = ∅ →
  cache (run c ops w0) !! ck = Some e →
  poll e = false →
  retry e ≠ 0 ↔
  ∃ key ops1 ops2 e1,
    ck = cacheKey (tag c) key ∧
    ops = ops1 ++ StopPolling key :: ops2 ∧
    Forall (λ o, ¬ creates key o) ops2 ∧
    cache (run c ops1 w0) !! ck = Some e1 ∧
    retry e1 ≠ 0.
Proof.
  intros Hempty He Hp. split.
  - intros Hnz.
    destruct (run_lookup_key ops w0 ck Hempty) as [key ->]; [by eexists|].
    destruct (run_nonpolling_cases ops w0 key e Hempty He Hp)
      as [Hz|(ops1 & ops2 & e1 & Hsplit & Hops2 & He1 & Hr)]; [done|].
    exists key, ops1, ops2, e1. split_and!; [done..|congruence].
  - intros (key & ops1 & ops2 & e1 & -> & -> & Hops2 & He1 & Hnz).
    change (StopPolling key :: ops2) with ([StopPolling key] ++ ops2) in He.
    unfold run in He. rewrite !foldl_app in He. fold (run c ops1 w0) in He.
    simpl in He.
    change (foldl (step c) ?w ops2) with (run c ops2 w) in He.
    rewrite (run_after_stop ops2 _ key
               {| etag := etag e1; poll := false; retry := retry e1 |})
      in He; [by injection He as <-|done| |done].
    unfold stopPolling. rewrite He1. simpl. apply lookup_insert_eq.
Qed.

(** *** How many refreshes are requested *)

Lemma advanceTimersByTime_refreshes dt w :
  refreshes (advanceTimersByTime dt w) = refreshes w.
Proof.
  unfold refreshes, advanceTimersByTime. rewrite foldl_run_callback. simpl.
  rewrite length_app, length_fmap.
  pose proof (Permutation_length
                (filter_app_complement (is_due (now w + dt)) (timers w)))
    as Hlen.
  rewrite length_app in Hlen. lia.
Qed.

Lemma step_refreshes_budget w o key (n : nat) :
  pollsOnly key o →
  retriesLeft c key w = Some n →
  ∃ n' : nat,
    retriesLeft c key (step c w o) = Some n' ∧
    (refreshes (step c w o) + n' ≤ refreshes w + n)%nat.
Proof.
  destruct o as [key'|key'|key'|dispatch key' marker records|dt]; simpl.
  - intros Hne Hn. exists n. split; [|done].
    unfold retriesLeft, setPoll in *; simpl.
    by rewrite lookup_insert_ne by (by apply cacheKey_ne).
  - intros _ Hn. unfold stopPolling.
    destruct (cache w !! cacheKey (tag c) key') as [e'|] eqn:He';
      [|by exists n].
    destruct (decide (key' = key)) as [->|Hne].
    + exists 0%nat. unfold retriesLeft, refreshes; simpl.
      rewrite lookup_insert_eq. simpl. split; [done|lia].
    + exists n. split; [|done]. unfold retriesLeft in *; simpl.
      by rewrite lookup_insert_ne by (by apply cacheKey_ne).
  - intros _ Hn. by exists n.
  - intros -> Hn. destruct (shouldContinue c w key marker records) eqn:Hc.
    + destruct (shouldContinue_entry _ _ _ _ _ Hc) as (e & He & Hp).
      pose proof (proj1 (shouldContinue_spec _ _ _ _ _ _ He) Hc)
        as (_ & _ & Hlim). unfold underRetryLimit in Hlim.
      rewrite (checkEtag_continued _ _ _ _ _ _ _ He Hc).
      unfold retriesLeft in *. rewrite He, Hp in Hn.
      unfold refreshes, continued. simpl.
      rewrite lookup_insert_eq, insert_timer_length. simpl. rewrite Hp.
      destruct (maxRetriesOf c) as [q| | |] eqn:Hmax; simpl in *;
        [|done..].
      injection Hn as <-. eexists. split; [done|].
      assert (retry e < Qceiling q) by (by apply Zlt_number_ceiling).
      lia.
    + rewrite (checkEtag_terminated _ _ _ _ _ _ Hc).
      exists 0%nat. unfold retriesLeft, refreshes, terminated. simpl.
      rewrite lookup_insert_eq. simpl. split; [done|lia].
  - intros _ Hn. exists n. rewrite advanceTimersByTime_refreshes.
    split; [|done]. unfold retriesLeft in *.
    by rewrite advanceTimersByTime_cache.
Qed.

(** X9.  Polling is bounded.  As long as [setPoll] is not called again
    for a key, all the [checkEtag] calls for it, whatever etags and
    records they carry and however they interleave with [stopPolling],
    [getPollStatus], calls of [setPoll] for other keys and timers firing,
    request no more refreshes than the retries the entry had left: for a
    polling entry, as many as there are integers from [retry] on that are
    below the maximum, which is [maxRetries - retry] for an integer
    maximum and the next integer above [maxRetries], less [retry], for
    one that is not; none for an entry that is not polling or a key
    without entry.  (With [maxRetries = Infinity] a polling entry has no
    such number.) *)
Theorem refreshes_bounded_by_retries_left ops w key (n : nat) :
  Forall (pollsOnly key) ops →
  retriesLeft c key w = Some n →
  (refreshes (run c ops w) ≤ refreshes w + n)%nat.
Proof.
  intros Hops Hn.
  enough (∃ n' : nat,
            retriesLeft c key (run c ops w) = Some n' ∧
            (refreshes (run c ops w) + n' ≤ refreshes w + n)%nat)
    as (n' & _ & Hle) by lia.
  apply (run_invariant c
           (λ w', ∃ n' : nat,
              retriesLeft c key w' = Some n' ∧
              (refreshes w' + n' ≤ refreshes w + n)%nat)
           (pollsOnly key)); [|done|by exists n].
  intros w' o Ho (n1 & Hn1 & IH).
  destruct (step_refreshes_budget w' o key n1 Ho Hn1) as (n2 & Hn2 & Hle).
  exists n2. split; [done|lia].
Qed.

Lemma Zlt_number_le m (r : Z) : Zlt_number r m → Zle_number r m.
Proof. destruct m; simpl; [apply Qlt_le_weak|done..]. Qed.

(** X10.  While the server keeps answering with the stored etag, every
    fetch is answered by one retry: [n] calls of [checkEtag] with the
    stored etag, [retry + n] not above the maximum, leave the entry
    polling with [retry] raised by [n] and request exactly [n]
    refreshes. *)
Theorem checkEtag_unchanged_etag_n_times dispatch key marker records w e n :
  cache w !! cacheKey (tag c) key = Some e →
  poll e = true →
  etag e = Some marker →
  Zle_number (retry e + Z.of_nat n) (maxRetriesOf c) →
  let w' := Nat.iter n (checkEtag c dispatch key marker records) w in
  cache w' !! cacheKey (tag c) key =
    Some {| etag := Some marker; poll := true; retry := retry e + Z.of_nat n |}
  ∧ refreshes w' = (refreshes w + n)%nat.
Proof.
  intros He Hp Hm. induction n as [|n IH]; intros Hn; simpl.
  - split; [|unfold refreshes; lia].
    rewrite He. f_equal. destruct e; simpl in *. subst.
    f_equal. lia.
  - assert (Zlt_number (retry e + Z.of_nat n) (maxRetriesOf c)) as Hlt.
    { apply Zlt_number_pred.
      by replace (retry e + Z.of_nat n + 1) with (retry e + Z.of_nat (S n))
        by lia. }
    destruct IH as [IHe IHr]; [by apply Zlt_number_le|].
    set (wn := Nat.iter n (checkEtag c dispatch key marker records) w) in *.
    assert (shouldContinue c wn key marker records = true) as Hc.
    { apply (shouldContinue_spec _ _ _ _ _ _ IHe). split; [done|].
      split; [by left|]. done. }
    rewrite (checkEtag_continued _ _ _ _ _ _ _ IHe Hc).
    unfold continued, refreshes in *. simpl.
    rewrite lookup_insert_eq, insert_timer_length.
    split; [|lia]. unfold bumped. simpl. do 2 f_equal. lia.
Qed.

(** *** What is dispatched *)

Lemma Forall_filter_of {A} (P Q : A → Prop) `{!∀ x, Decision (P x)}
    (l : list A) :
  Forall Q l → Forall Q (filter P l).
Proof.
  rewrite !Forall_forall. intros HQ x [_ Hx]%list_elem_of_filter. by apply HQ.
Qed.

Lemma step_own_refreshes (Q : D → Prop) w o :
  (∀ dispatch key marker records,
     o = CheckEtag dispatch key marker records → Q dispatch) →
  own_refreshes c Q w → own_refreshes c Q (step c w o).
Proof.
  intros HQ [Htm Htr].
  destruct o as [key|key|key|dispatch key marker records|dt]; simpl.
  - done.
  - unfold stopPolling. by destruct (cache w !! cacheKey (tag c) key).
  - done.
  - unfold checkEtag.
    destruct (shouldContinue c w key marker records); [|done].
    split; [|done]. simpl. rewrite insert_timer_perm.
    apply Forall_cons. split; [|done]. simpl. split; [done|].
    by eapply HQ.
  - unfold own_refreshes, advanceTimersByTime.
    rewrite foldl_run_callback. simpl. split.
    + by apply Forall_filter_of.
    + apply Forall_app. split; [done|].
      apply Forall_fmap. apply Forall_filter_of.
      eapply Forall_impl; [exact Htm|].
      intros [due cb] [Hthis Hd]. simpl in *. unfold refresh_event.
      simpl. by rewrite Hthis.
Qed.

(** X11.  The only thing an instance ever hands to a [dispatch] is the
    action [invalidateTags([tag])] for its own tag, and only to a
    [dispatch] function that some [checkEtag] call received. *)
Theorem only_own_tag_is_invalidated ops (ev : D * action) :
  ev ∈ trace (run c ops init) →
  ev.2 = invalidateTags (api c) [tag c] ∧
  ∃ key marker records, CheckEtag ev.1 key marker records ∈ ops.
Proof.
  intros Hev.
  set (Q := λ d : D, ∃ key marker records,
                        @CheckEtag K D d key marker records ∈ ops).
  assert (own_refreshes c Q (run c ops init)) as [_ Htr].
  { apply (run_invariant c (own_refreshes c Q)
             (λ o, o ∈ ops)).
    - intros w o Ho Hinv. apply step_own_refreshes; [|done].
      intros dispatch key marker records ->. by exists key, marker, records.
    - by apply Forall_forall.
    - by split. }
  rewrite Forall_forall in Htr. destruct (Htr ev Hev) as [HQ Hact].
  by split.
Qed.

(** X12.  No method of the class calls [dispatch] itself: as long as no
    time passes, any sequence of [setPoll], [stopPolling],
    [getPollStatus] and [checkEtag] calls leaves the dispatch trace as it
    was. *)
Theorem nothing_dispatched_synchronously ops w :
  Forall (λ o, is_Some (opKey o)) ops →
  trace (run c ops w) = trace w.
Proof.
  intros Hops.
  apply (run_invariant c (λ w', trace w' = trace w)
           (λ o, is_Some (opKey o))); [|done|done].
  intros w' o Ho <-.
  destruct o as [key|key|key|dispatch key marker records|dt]; simpl.
  - done.
  - unfold stopPolling. by destruct (cache w' !! cacheKey (tag c) key).
  - done.
  - unfold checkEtag.
    by destruct (shouldContinue c w' key marker records).
  - by destruct Ho.
Qed.

End Compositions.

(** ** Properties of the mock server *)

(** The etag in force is the one named after the counter. *)
Lemma server_generateNewEtag_named (s : MockServer.state) :
  MockServer.currentEtag (MockServer.generateNewEtag s).2 =
  "etag-" +:+ pretty (MockServer.counter (MockServer.generateNewEtag s).2).
Proof. done. Qed.

Lemma server_foldl_generateNewEtag (l : list Z) (s : MockServer.state) :
  let s' := foldl (λ s' _, (MockServer.generateNewEtag s').2) s l in
  MockServer.todos s' = MockServer.todos s ∧
  MockServer.counter s' = MockServer.counter s + Z.of_nat (length l) ∧
  MockServer.clock s' = MockServer.clock s ∧
  MockServer.scheduled s' = MockServer.scheduled s ∧
  (MockServer.currentEtag s = "etag-" +:+ pretty (MockServer.counter s) →
   MockServer.currentEtag s' = "etag-" +:+ pretty (MockServer.counter s')).
Proof.
  revert s. induction l as [|x l IH]; intros s; simpl.
  - split_and!; [done|lia|done|done|done].
  - destruct (IH (MockServer.generateNewEtag s).2)
      as (Ht & Hc & Hk & Hs & He).
    simpl in *. split_and!; [done|lia|done|done|].
    intros _. by apply He.
Qed.

Lemma server_tick_fields dt (s : MockServer.state) :
  let fired :=
    filter (λ due, due ≤ MockServer.clock s + dt) (MockServer.scheduled s) in
  MockServer.todos (MockServer.tick dt s) = MockServer.todos s ∧
  MockServer.counter (MockServer.tick dt s) =
    MockServer.counter s + Z.of_nat (length fired) ∧
  (MockServer.currentEtag s = "etag-" +:+ pretty (MockServer.counter s) →
   MockServer.currentEtag (MockServer.tick dt s) =
     "etag-" +:+ pretty (MockServer.counter (MockServer.tick dt s))).
Proof.
  intros fired. unfold MockServer.tick. fold fired.
  match goal with
  | |- context [foldl ?f ?s0 fired] =>
      destruct (server_foldl_generateNewEtag fired s0)
        as (Ht & Hc & _ & _ & He)
  end.
  simpl in *. by split_and!.
Qed.

Lemma server_etag_eq_iff (s1 s2 : MockServer.state) :
  MockServer.currentEtag s1 = "etag-" +:+ pretty (MockServer.counter s1) →
  MockServer.currentEtag s2 = "etag-" +:+ pretty (MockServer.counter s2) →
  MockServer.currentEtag s2 = MockServer.currentEtag s1 ↔
  MockServer.counter s2 = MockServer.counter s1.
Proof.
  intros -> ->. split; [|by intros ->].
  intros Heq. apply (String.app_inj "etag-") in Heq.
  by apply pretty_Z_inj in Heq.
Qed.

Lemma server_handle_named (s : MockServer.state) r :
  MockServer.currentEtag s = "etag-" +:+ pretty (MockServer.counter s) →
  MockServer.currentEtag (MockServer.handle s r) =
    "etag-" +:+ pretty (MockServer.counter (MockServer.handle s r)).
Proof.
  intros Hs. destruct r as [|id' status'|title'|dt]; simpl; [done|done|done|].
  by apply server_tick_fields.
Qed.

Lemma server_handle_counter (s : MockServer.state) r :
  MockServer.counter s ≤ MockServer.counter (MockServer.handle s r) ∧
  (∀ id' status', r = MockServer.Put id' status' →
     MockServer.counter s < MockServer.counter (MockServer.handle s r)).
Proof.
  destruct r as [|id' status'|title'|dt]; simpl.
  - split; [lia|done].
  - split; [lia|]. intros; lia.
  - split; [lia|done].
  - destruct (server_tick_fields dt s) as (_ & -> & _). split; [lia|done].
Qed.

Lemma server_serve_snoc rs r (s : MockServer.state) :
  MockServer.serve (rs ++ [r]) s =
  MockServer.handle (MockServer.serve rs s) r.
Proof. unfold MockServer.serve. by rewrite foldl_app. Qed.

Lemma server_serve_app rs1 rs2 (s : MockServer.state) :
  MockServer.serve (rs1 ++ rs2) s =
  MockServer.serve rs2 (MockServer.serve rs1 s).
Proof. unfold MockServer.serve. by rewrite foldl_app. Qed.

Lemma server_serve_named rs (s : MockServer.state) :
  MockServer.currentEtag s = "etag-" +:+ pretty (MockServer.counter s) →
  MockServer.currentEtag (MockServer.serve rs s) =
    "etag-" +:+ pretty (MockServer.counter (MockServer.serve rs s)).
Proof.
  intros Hs. induction rs as [|r rs IH] using rev_ind; [done|].
  rewrite server_serve_snoc. by apply server_handle_named.
Qed.

Lemma server_serve_counter rs (s : MockServer.state) :
  MockServer.counter s ≤ MockServer.counter (MockServer.serve rs s).
Proof.
  induction rs as [|r rs IH] using rev_ind; [done|].
  rewrite server_serve_snoc.
  pose proof (server_handle_counter (MockServer.serve rs s) r) as [? _].
  lia.
Qed.

(** X13.  In every state the server reaches, the etag it serves is the
    one named after its counter, and the counter only grows: the etag at
    a later moment equals the etag at an earlier one exactly when no new
    etag was generated in between. *)
Theorem server_etag_changes_with_counter rs1 rs2 :
  let s1 := MockServer.serve rs1 MockServer.initial in
  let s2 := MockServer.serve rs2 s1 in
  MockServer.currentEtag s1 = "etag-" +:+ pretty (MockServer.counter s1) ∧
  MockServer.counter s1 ≤ MockServer.counter s2 ∧
  (MockServer.currentEtag s2 = MockServer.currentEtag s1 ↔
   MockServer.counter s2 = MockServer.counter s1).
Proof.
  intros s1 s2.
  assert (MockServer.currentEtag s1 =
          "etag-" +:+ pretty (MockServer.counter s1)) as H1
    by (by apply server_serve_named).
  split_and!; [done|apply server_serve_counter|].
  apply server_etag_eq_iff; [done|]. by apply server_serve_named.
Qed.

Lemma server_etag_after_put rs1 rs2 id' status' :
  MockServer.Put id' status' ∈ rs2 →
  let s1 := MockServer.serve rs1 MockServer.initial in
  MockServer.currentEtag (MockServer.serve rs2 s1) ≠ MockServer.currentEtag s1.
Proof.
  intros Hin s1.
  assert (MockServer.currentEtag s1 =
          "etag-" +:+ pretty (MockServer.counter s1)) as H1
    by (by apply server_serve_named).
  apply list_elem_of_split in Hin as (l1 & l2 & ->).
  rewrite server_serve_app. change (?x :: l2) with ([x] ++ l2).
  rewrite server_serve_app.
  set (sa := MockServer.serve l1 s1).
  set (sb := MockServer.serve [MockServer.Put id' status'] sa).
  pose proof (server_serve_counter l1 s1) as Ha. fold sa in Ha.
  pose proof (server_serve_counter l2 sb) as Hb.
  assert (MockServer.counter sa < MockServer.counter sb) as Hab
    by (subst sb; simpl; lia).
  intros Heq.
  apply server_etag_eq_iff in Heq; [lia|done|].
  subst sb sa. by do 3 apply server_serve_named.
Qed.

(** X14.  Etags are not reused across a status update: once a PUT has
    been handled, the server never again serves the etag it served
    before that PUT, whatever requests and delays follow. *)
Theorem server_put_retires_etag rs1 rs2 id' status' :
  MockServer.Put id' status' ∈ rs2 →
  let s1 := MockServer.serve rs1 MockServer.initial in
  (MockServer.getTodos (MockServer.serve rs2 s1)).1.(MockServer.ETag) ≠
  (MockServer.getTodos s1).1.(MockServer.ETag).
Proof. intros Hin s1. simpl. by eapply server_etag_after_put. Qed.

(** *** The todos of the mock database *)

Lemma server_handle_ids (s : MockServer.state) r :
  MockServer.id <$> MockServer.todos s =
    (λ n : nat, pretty n) <$> seq 1 (length (MockServer.todos s)) →
  MockServer.id <$> MockServer.todos (MockServer.handle s r) =
    (λ n : nat, pretty n) <$>
      seq 1 (length (MockServer.todos (MockServer.handle s r))).
Proof.
  intros Hs. destruct r as [|id' status'|title'|dt]; simpl.
  - done.
  - rewrite length_fmap, <- list_fmap_compose, <- Hs.
    apply list_fmap_ext. intros i t _. simpl.
    unfold MockServer.withStatus. by case_decide.
  - rewrite fmap_app, length_app, seq_app, fmap_app, <- Hs. simpl.
    do 3 f_equal. lia.
  - destruct (server_tick_fields dt s) as (-> & _ & _). done.
Qed.

Lemma server_serve_ids rs :
  let s := MockServer.serve rs MockServer.initial in
  MockServer.id <$> MockServer.todos s =
    (λ n : nat, pretty n) <$> seq 1 (length (MockServer.todos s)).
Proof.
  induction rs as [|r rs IH] using rev_ind; [done|].
  rewrite server_serve_snoc. by apply server_handle_ids.
Qed.

Lemma server_serve_ids_NoDup rs :
  NoDup (MockServer.id <$> MockServer.todos
           (MockServer.serve rs MockServer.initial)).
Proof.
  rewrite server_serve_ids.
  apply (NoDup_fmap_2 (λ n : nat, pretty n)). apply NoDup_seq.
Qed.

(** X15.  The ids of the todos are always ["1"], ["2"], ... in list
    order, whatever was added or updated; hence no two todos share an
    id. *)
Theorem server_ids_are_positions rs :
  let s := MockServer.serve rs MockServer.initial in
  MockServer.id <$> MockServer.todos s =
    (λ n : nat, pretty n) <$> seq 1 (length (MockServer.todos s)) ∧
  NoDup (MockServer.id <$> MockServer.todos s).
Proof. split; [apply server_serve_ids|apply server_serve_ids_NoDup]. Qed.

Lemma server_put_todos rs id' status' (i : nat) t :
  let s := MockServer.serve rs MockServer.initial in
  MockServer.todos s !! i = Some t →
  MockServer.id t = id' →
  MockServer.todos (MockServer.putTodo id' status' s).2 =
  <[i := {| MockServer.id := MockServer.id t;
            MockServer.title := MockServer.title t;
            MockServer.status := status' |}]> (MockServer.todos s).
Proof.
  intros s Ht Hid. simpl.
  pose proof (server_serve_ids_NoDup rs) as Hnd. fold s in Hnd.
  apply list_eq. intros j. rewrite list_lookup_fmap.
  destruct (decide (j = i)) as [->|Hne].
  - rewrite list_lookup_insert_eq by (by eapply lookup_lt_Some).
    rewrite Ht. simpl. unfold MockServer.withStatus.
    by rewrite decide_True.
  - rewrite list_lookup_insert_ne by done.
    destruct (MockServer.todos s !! j) as [t'|] eqn:Ht'; [|done].
    simpl. unfold MockServer.withStatus.
    case_decide as Heq; [|done]. exfalso. apply Hne.
    apply (NoDup_lookup _ j i id' Hnd); rewrite list_lookup_fmap.
    + by rewrite Ht'; simpl; rewrite Heq.
    + by rewrite Ht; simpl; rewrite Hid.
Qed.

(** X16.  A PUT for the id of a todo changes the status of that one todo
    and nothing else in the list: not its id or title, not the other
    todos, not their order. *)
Theorem server_put_updates_one_todo rs id' status' (i : nat) t :
  let s := MockServer.serve rs MockServer.initial in
  MockServer.todos s !! i = Some t →
  MockServer.id t = id' →
  MockServer.todos (MockServer.putTodo id' status' s).2 =
  <[i := {| MockServer.id := MockServer.id t;
            MockServer.title := MockServer.title t;
            MockServer.status := status' |}]> (MockServer.todos s).
Proof. apply server_put_todos. Qed.

(** X21.  The etag is not a digest of the data: a PUT that changes the
    status of a todo followed by a PUT that puts the old status back
    leaves the list of todos exactly as it was, and yet the server ends
    with an etag different from both earlier ones. *)
Theorem server_put_back_restores_todos_not_etag rs status' (i : nat) t :
  let s := MockServer.serve rs MockServer.initial in
  let s1 := (MockServer.putTodo (MockServer.id t) status' s).2 in
  let s2 :=
    (MockServer.putTodo (MockServer.id t) (MockServer.status t) s1).2 in
  MockServer.todos s !! i = Some t →
  MockServer.todos s2 = MockServer.todos s ∧
  MockServer.currentEtag s2 ≠ MockServer.currentEtag s ∧
  MockServer.currentEtag s2 ≠ MockServer.currentEtag s1.
Proof.
  intros s s1 s2 Ht.
  set (p1 := MockServer.Put (MockServer.id t) status').
  set (p2 := MockServer.Put (MockServer.id t) (MockServer.status t)).
  assert (s1 = MockServer.serve (rs ++ [p1]) MockServer.initial) as Hs1
    by (by rewrite server_serve_snoc).
  assert (MockServer.todos s1 =
          <[i := {| MockServer.id := MockServer.id t;
                    MockServer.title := MockServer.title t;
                    MockServer.status := status' |}]> (MockServer.todos s))
    as Ht1 by (by apply server_put_todos).
  split_and!.
  - subst s2. rewrite Hs1.
    rewrite (server_put_todos (rs ++ [p1]) _ _ i
               {| MockServer.id := MockServer.id t;
                  MockServer.title := MockServer.title t;
                  MockServer.status := status' |}).
    + rewrite <- Hs1, Ht1. simpl. rewrite list_insert_insert_eq.
      apply list_insert_id. rewrite Ht. by destruct t.
    + rewrite <- Hs1, Ht1. apply list_lookup_insert_eq.
      by eapply lookup_lt_Some.
    + done.
  - change s2 with (MockServer.serve [p1; p2] s).
    apply (server_etag_after_put rs [p1; p2] (MockServer.id t) status').
    apply list_elem_of_here.
  - change s2 with (MockServer.serve [p2] s1). rewrite Hs1.
    apply (server_etag_after_put (rs ++ [p1]) [p2] (MockServer.id t)
             (MockServer.status t)).
    apply list_elem_of_here.
Qed.

(** X17.  A PUT for an id that no todo has is still answered with status
    200 and [{success: true}]; it changes no todo, and it changes the
    etag all the same. *)
Theorem server_put_unknown_id rs id' status' :
  let s := MockServer.serve rs MockServer.initial in
  Forall (λ t, MockServer.id t ≠ id') (MockServer.todos s) →
  let '(res, s') := MockServer.putTodo id' status' s in
  MockServer.todos s' = MockServer.todos s ∧
  MockServer.statusCode res = 200 ∧
  MockServer.body res = MockServer.JsonSuccess true ∧
  MockServer.ETag res ≠ MockServer.currentEtag s.
Proof.
  intros s Hids. simpl. split_and!; [|done|done|].
  - rewrite <- (list_fmap_id (MockServer.todos s)) at 2.
    apply Forall_fmap_ext. eapply Forall_impl; [exact Hids|].
    intros t Ht. simpl. unfold MockServer.withStatus. by case_decide.
  - assert (MockServer.currentEtag s =
            "etag-" +:+ pretty (MockServer.counter s)) as ->
      by (by apply server_serve_named).
    intros Heq. apply (String.app_inj "etag-") in Heq.
    apply pretty_Z_inj in Heq. lia.
Qed.

(** X18.  A POST appends the new todo and answers with the etag that was
    current before it.  For the next 2000 units of time a GET shows the
    new todo under the etag it would have shown without the POST; from
    then on the etag differs from what it would have been. *)
Theorem server_post_stale_etag_window rs title' dt :
  let s := MockServer.serve rs MockServer.initial in
  let newTodo :=
    {| MockServer.id := pretty (length (MockServer.todos s) + 1)%nat;
       MockServer.title := title';
       MockServer.status := "pending" |} in
  let '(res, s') := MockServer.postTodo title' s in
  MockServer.ETag res = MockServer.currentEtag s ∧
  MockServer.body res = MockServer.JsonTodo newTodo ∧
  MockServer.todos (MockServer.tick dt s') = MockServer.todos s ++ [newTodo] ∧
  (dt < 2000 →
   MockServer.currentEtag (MockServer.tick dt s') =
   MockServer.currentEtag (MockServer.tick dt s)) ∧
  (2000 ≤ dt →
   MockServer.currentEtag (MockServer.tick dt s') ≠
   MockServer.currentEtag (MockServer.tick dt s)).
Proof.
  intros s newTodo.
  destruct (MockServer.postTodo title' s) as [res s'] eqn:Hpost.
  assert (res = (MockServer.postTodo title' s).1) as Hres
    by (by rewrite Hpost).
  assert (s' = (MockServer.postTodo title' s).2) as Hs'
    by (by rewrite Hpost).
  clear Hpost.
  assert (MockServer.currentEtag s =
          "etag-" +:+ pretty (MockServer.counter s)) as Hs
    by (by apply server_serve_named).
  assert (MockServer.currentEtag s' = MockServer.currentEtag s) as Hetag
    by (by rewrite Hs').
  assert (MockServer.counter s' = MockServer.counter s) as Hcounter
    by (by rewrite Hs').
  assert (MockServer.clock s' = MockServer.clock s) as Hclock
    by (by rewrite Hs').
  assert (MockServer.scheduled s' =
          MockServer.scheduled s ++ [MockServer.clock s + 2000]) as Hsched
    by (by rewrite Hs').
  destruct (server_tick_fields dt s) as (_ & Hc & He).
  destruct (server_tick_fields dt s') as (Ht' & Hc' & He').
  specialize (He Hs). rewrite Hetag, Hcounter in He'. specialize (He' Hs).
  rewrite Hcounter, Hclock, Hsched, filter_app, length_app in Hc'.
  split_and!.
  - by rewrite Hres.
  - by rewrite Hres.
  - by rewrite Ht', Hs'.
  - intros Hdt. apply server_etag_eq_iff; [done|done|].
    rewrite Hc, Hc'. rewrite filter_cons_False by lia. simpl. lia.
  - intros Hdt Heq. apply server_etag_eq_iff in Heq; [|done|done].
    rewrite Hc, Hc' in Heq. rewrite filter_cons_True in Heq by lia.
    simpl in Heq. lia.
Qed.

(** ** The app: the api slice against the mock server *)

Section App.

Context {D action : Type}.
Variable todosApi : @ApiWithInvalidateTags action.

Implicit Types (w : @world TodosApi.Todo D action) (dispatch : D).

Lemma server_etag_nonempty rs :
  MockServer.currentEtag (MockServer.serve rs MockServer.initial) ≠ "".
Proof.
  rewrite server_serve_named by done. discriminate.
Qed.

Lemma metaEtag_served rs :
  let s := MockServer.serve rs MockServer.initial in
  TodosApi.metaEtag (Some (MockServer.ETag (MockServer.getTodos s).1)) =
  MockServer.currentEtag s.
Proof.
  intros s. simpl. unfold TodosApi.metaEtag.
  rewrite decide_False; [done|]. apply server_etag_nonempty.
Qed.

(** X19.  A status update ends the polling at the first refetch.  If the
    etag the cacher holds (if any) is one the server served before the
    PUT, then after the mutation's [setPoll], the [checkEtag] of any later
    GET finds a different etag: it stores that etag with [poll: false,
    retry: 0] and requests no refresh. *)
Theorem app_status_update_stops_polling
    rs1 rs2 id' status' dispatch w :
  let s1 := MockServer.serve rs1 MockServer.initial in
  let s2 := MockServer.serve rs2 s1 in
  let header := MockServer.ETag (MockServer.getTodos s2).1 in
  MockServer.Put id' status' ∈ rs2 →
  (∀ m, cache w !! "Todos.global" ≫= etag = Some m →
        m = MockServer.currentEtag s1) →
  TodosApi.getTodos_onQueryStarted todosApi dispatch
    (Some (TodosApi.metaEtag (Some header)))
    (TodosApi.mutation_onQueryStarted todosApi true w) =
  terminated (TodosApi.todosCacher todosApi) "global" header w.
Proof.
  intros s1 s2 header Hput Hold.
  assert (TodosApi.metaEtag (Some header) = header) as ->.
  { subst header s2 s1. unfold MockServer.serve.
    rewrite <- foldl_app. apply metaEtag_served. }
  assert (header ≠ MockServer.currentEtag s1) as Hnew
    by (by eapply server_etag_after_put).
  unfold TodosApi.getTodos_onQueryStarted, TodosApi.mutation_onQueryStarted.
  set (c := TodosApi.todosCacher todosApi).
  assert (cache (setPoll c "global" w) !! cacheKey (tag c) "global" =
          Some {| etag := cache w !! "Todos.global" ≫= etag;
                  poll := true; retry := 0 |}) as He
    by (unfold setPoll; simpl; apply lookup_insert_eq).
  assert (shouldContinue c (setPoll c "global" w) "global" header None = false)
    as Hc.
  { destruct (shouldContinue c (setPoll c "global" w) "global" header None)
      eqn:Hc; [|done].
    apply (shouldContinue_spec _ _ _ _ _ _ He) in Hc
      as (_ & [Hm|Hp] & _).
    - unfold markerUnchanged in Hm. simpl in Hm.
      by apply Hold in Hm.
    - by destruct Hp as (items & p & [=] & _). }
  rewrite (checkEtag_terminated _ _ _ _ _ _ Hc).
  unfold terminated, setPoll. simpl. by rewrite insert_insert_eq.
Qed.

(** X20.  Adding a todo keeps the polling going while the server has not
    yet changed its etag.  If the cacher holds the etag the server served
    before the POST and no new etag is generated within the [dt < 2000]
    that pass until the refetch, then after the mutation's [setPoll] the
    [checkEtag] of the GET finds the same etag: the entry stays polling
    with [retry = 1] and one refresh is scheduled, 1000 from now. *)
Theorem app_add_todo_keeps_polling rs title' dt dispatch w e :
  let s := MockServer.serve rs MockServer.initial in
  let s' := MockServer.tick dt (MockServer.postTodo title' s).2 in
  let header := MockServer.ETag (MockServer.getTodos s').1 in
  let w' :=
    TodosApi.getTodos_onQueryStarted todosApi dispatch
      (Some (TodosApi.metaEtag (Some header)))
      (TodosApi.mutation_onQueryStarted todosApi true w) in
  cache w !! "Todos.global" = Some e →
  etag e = Some (MockServer.currentEtag s) →
  dt < 2000 →
  Forall (λ due, MockServer.clock s + dt < due) (MockServer.scheduled s) →
  cache w' !! "Todos.global" =
    Some {| etag := Some (MockServer.currentEtag s); poll := true;
            retry := 1 |} ∧
  timers w' =
    insert_timer
      (now w + 1000,
       {| cb_dispatch := dispatch;
          cb_this := TodosApi.todosCacher todosApi |})
      (timers w) ∧
  trace w' = trace w.
Proof.
  intros s s' header w' He Hm Hdt Hsched.
  assert (MockServer.currentEtag s =
          "etag-" +:+ pretty (MockServer.counter s)) as Hs
    by (by apply server_serve_named).
  assert (header = MockServer.currentEtag s) as Hheader.
  { subst header s'. simpl.
    destruct (server_tick_fields dt (MockServer.postTodo title' s).2)
      as (_ & Hc & Hn).
    simpl in Hc, Hn. specialize (Hn Hs).
    apply server_etag_eq_iff; [done|done|].
    rewrite Hc, filter_app, length_app.
    rewrite filter_cons_False by lia. simpl.
    replace (filter _ (MockServer.scheduled s)) with (@nil Z); [simpl; lia|].
    symmetry. clear -Hsched.
    induction Hsched as [|due l Hdue _ IH]; [done|].
    rewrite filter_cons_False by lia. done. }
  assert (TodosApi.metaEtag (Some header) = header) as Hmeta.
  { rewrite Hheader. unfold TodosApi.metaEtag.
    rewrite decide_False; [done|]. apply server_etag_nonempty. }
  subst w'. rewrite Hmeta, Hheader.
  unfold TodosApi.getTodos_onQueryStarted, TodosApi.mutation_onQueryStarted.
  set (c := TodosApi.todosCacher todosApi).
  assert (cache (setPoll c "global" w) !! cacheKey (tag c) "global" =
          Some {| etag := Some (MockServer.currentEtag s);
                  poll := true; retry := 0 |}) as He'.
  { unfold setPoll; simpl. rewrite lookup_insert_eq.
    change (cacheKey "Todos" "global") with "Todos.global".
    rewrite He. simpl. by rewrite Hm. }
  assert (shouldContinue c (setPoll c "global" w) "global"
            (MockServer.currentEtag s) None = true) as Hc.
  { apply (shouldContinue_spec _ _ _ _ _ _ He'). split; [done|].
    split; [by left|]. unfold underRetryLimit. simpl. reflexivity. }
  rewrite (checkEtag_continued _ _ _ _ _ _ _ He' Hc).
  unfold continued. simpl. split_and!; [|done|done].
  change (cacheKey "Todos" "global") with "Todos.global".
  by rewrite lookup_insert_eq.
Qed.

End App.

(** ** The further properties on concrete runs *)

(** C2 (amended) on a run in which a [checkEtag] follows the
    [stopPolling]: a fetch, a mutation, a fetch that continues, an
    explicit stop with [retry = 1], and a fetch that resets the entry. *)
Lemma nonpolling_retry_zero_unless_stopped_witness :
  let c := testCacher noOptions in
  let ops :=
    [ CheckEtag () "test-key" "same-etag" None;
      SetPoll "test-key";
      CheckEtag () "test-key" "same-etag" None;
      StopPolling "test-key";
      CheckEtag () "test-key" "new-etag" None ] in
  let e := {| etag := Some "new-etag"; poll := false; retry := 0 |} in
  cache (testWorld ∅) = ∅ ∧
  cache (run c ops (testWorld ∅)) !! "TestTag.test-key" = Some e ∧
  poll e = false ∧
  (retry e ≠ 0 ↔
   ∃ key ops1 ops2 e1,
     "TestTag.test-key" = cacheKey (tag c) key ∧
     ops = ops1 ++ StopPolling key :: ops2 ∧
     Forall (λ o, ¬ creates key o) ops2 ∧
     cache (run c ops1 (testWorld ∅)) !! "TestTag.test-key" = Some e1 ∧
     retry e1 ≠ 0).
Proof.
  intros c ops e.
  assert (cache (run c ops (testWorld ∅)) !! "TestTag.test-key" = Some e)
    as He by (vm_compute; reflexivity).
  split; [reflexivity|]. split; [exact He|]. split; [reflexivity|].
  exact (nonpolling_retry_zero_unless_stopped c ops (testWorld ∅)
           "TestTag.test-key" e eq_refl He eq_refl).
Defined.

(** X5 after "should stop polling if etags are different". *)
Lemma checkEtag_after_terminated_witness :
  let c := testCacher noOptions in
  let w :=
    testEntry {| etag := Some "old-etag"; poll := true; retry := 1 |} in
  shouldContinue c w "test-key" "new-etag" None = false ∧
  checkEtag c () "test-key" "newer-etag" None
    (checkEtag c () "test-key" "new-etag" None w) =
  terminated c "test-key" "newer-etag" w.
Proof.
  intros c w. split; [reflexivity|].
  exact (checkEtag_after_terminated c () () "test-key" "new-etag"
           "newer-etag" None None w eq_refl).
Defined.

(** X6: stopping and reading a key, and polling another one, create no
    entry for it. *)
Lemma getPollStatus_null_iff_never_seen_witness :
  let c := testCacher noOptions in
  let ops :=
    [ StopPolling "test-key"; SetPoll "other-key";
      GetPollStatus "test-key" ] in
  cache (testWorld ∅) = ∅ ∧
  (getPollStatus c "test-key" (run c ops (testWorld ∅)) = None ↔
   Forall (λ o, ¬ creates "test-key" o) ops).
Proof.
  intros c ops. split; [reflexivity|].
  exact (getPollStatus_null_iff_never_seen c ops (testWorld ∅) "test-key"
           eq_refl).
Defined.

(** X7 on the state of "should return the polling status for a key". *)
Lemma getPollStatus_stays_defined_witness :
  let c := testCacher noOptions in
  let w :=
    testEntry {| etag := Some "test-etag"; poll := true; retry := 3 |} in
  let ops :=
    [ StopPolling "test-key"; CheckEtag () "test-key" "new-etag" None;
      AdvanceTimers 5000 ] in
  is_Some (getPollStatus c "test-key" w) ∧
  is_Some (getPollStatus c "test-key" (run c ops w)).
Proof.
  intros c w ops.
  assert (is_Some (getPollStatus c "test-key" w)) as Hw
    by (eexists; reflexivity).
  split; [exact Hw|].
  exact (getPollStatus_stays_defined c ops w "test-key" Hw).
Defined.

(** X8: polling ["other-key"] does not change the status of
    ["test-key"]. *)
Lemma getPollStatus_only_own_key_witness :
  let c := testCacher noOptions in
  let w :=
    testEntry {| etag := Some "test-etag"; poll := true; retry := 3 |} in
  let ops :=
    [ SetPoll "other-key"; CheckEtag () "other-key" "new-etag" None;
      StopPolling "other-key"; AdvanceTimers 5000 ] in
  Forall (λ o, opKey o ≠ Some "test-key") ops ∧
  getPollStatus c "test-key" (run c ops w) =
    Some {| polling := true; retries := 3 |}.
Proof.
  intros c w ops.
  assert (Forall (λ o, opKey o ≠ Some "test-key") ops) as Hops
    by (repeat constructor; discriminate).
  split; [exact Hops|].
  exact (getPollStatus_only_own_key c ops w "test-key" Hops).
Defined.

(** X9: with [maxRetries = 2.5] and no retry used, three retries are
    left, and five fetches with the stored etag request at most three
    refreshes. *)
Lemma refreshes_bounded_by_retries_left_witness :
  let c := testCacher (withMaxRetries (Num (5 # 2))) in
  let w :=
    testEntry {| etag := Some "same-etag"; poll := true; retry := 0 |} in
  let ops :=
    [ CheckEtag () "test-key" "same-etag" None;
      CheckEtag () "test-key" "same-etag" None;
      AdvanceTimers 1000;
      CheckEtag () "test-key" "same-etag" None;
      CheckEtag () "test-key" "same-etag" None;
      CheckEtag () "test-key" "same-etag" None ] in
  Forall (pollsOnly "test-key") ops ∧
  retriesLeft c "test-key" w = Some 3%nat ∧
  (refreshes (run c ops w) ≤ refreshes w + 3)%nat.
Proof.
  intros c w ops.
  assert (Forall (pollsOnly "test-key") ops) as Hops
    by (repeat constructor).
  split; [exact Hops|]. split; [reflexivity|].
  exact (refreshes_bounded_by_retries_left c ops w "test-key" 3 Hops
           eq_refl).
Defined.

(** X10: three fetches with the stored etag, three retries left. *)
Lemma checkEtag_unchanged_etag_n_times_witness :
  let c := testCacher (withMaxRetries (ofZ 5)) in
  let e := {| etag := Some "same-etag"; poll := true; retry := 2 |} in
  let w := testEntry e in
  let w' :=
    Nat.iter 3 (checkEtag c () "test-key" "same-etag" None) w in
  cache w !! cacheKey (tag c) "test-key" = Some e ∧
  poll e = true ∧
  etag e = Some "same-etag" ∧
  Zle_number (retry e + Z.of_nat 3) (maxRetriesOf c) ∧
  cache w' !! cacheKey (tag c) "test-key" =
    Some {| etag := Some "same-etag"; poll := true;
            retry := retry e + Z.of_nat 3 |} ∧
  refreshes w' = (refreshes w + 3)%nat.
Proof.
  intros c e w w'.
  assert (Zle_number (retry e + Z.of_nat 3) (maxRetriesOf c)) as Hn
    by (vm_compute; discriminate).
  split; [reflexivity|]. split; [reflexivity|]. split; [reflexivity|].
  split; [exact Hn|].
  exact (checkEtag_unchanged_etag_n_times c () "test-key" "same-etag" None
           w e 3 eq_refl eq_refl eq_refl Hn).
Defined.

(** X11: the one dispatch of a fetch, a mutation, a fetch with the same
    etag and the retry delay. *)
Lemma only_own_tag_is_invalidated_witness :
  let c := testCacher noOptions in
  let ops :=
    [ CheckEtag () "test-key" "same-etag" None;
      SetPoll "test-key";
      CheckEtag () "test-key" "same-etag" None;
      AdvanceTimers 1000 ] in
  let ev := ((), ["TestTag"]) in
  ev ∈ trace (run c ops init) ∧
  ev.2 = invalidateTags (api c) [tag c] ∧
  ∃ key marker records, CheckEtag ev.1 key marker records ∈ ops.
Proof.
  intros c ops ev.
  assert (ev ∈ trace (run c ops init)) as Hev
    by (vm_compute; apply list_elem_of_here).
  split; [exact Hev|].
  exact (only_own_tag_is_invalidated c ops ev Hev).
Defined.

(** X12: the same calls without the delay dispatch nothing. *)
Lemma nothing_dispatched_synchronously_witness :
  let c := testCacher noOptions in
  let ops :=
    [ CheckEtag () "test-key" "same-etag" None;
      SetPoll "test-key";
      CheckEtag () "test-key" "same-etag" None;
      GetPollStatus "test-key" ] in
  Forall (λ o, is_Some (opKey o)) ops ∧
  trace (run c ops (testWorld ∅)) = [].
Proof.
  intros c ops.
  assert (Forall (λ o, is_Some (opKey o)) ops) as Hops
    by (repeat constructor; eexists; reflexivity).
  split; [exact Hops|].
  exact (nothing_dispatched_synchronously c ops (testWorld ∅) Hops).
Defined.

(** X14: the etag served after a POST is gone once a PUT was handled. *)
Lemma server_put_retires_etag_witness :
  let rs1 := [MockServer.Post "Write tests"] in
  let rs2 :=
    [MockServer.Get; MockServer.Put "1" "completed"; MockServer.Tick 3000] in
  let s1 := MockServer.serve rs1 MockServer.initial in
  MockServer.Put "1" "completed" ∈ rs2 ∧
  (MockServer.getTodos (MockServer.serve rs2 s1)).1.(MockServer.ETag) ≠
  (MockServer.getTodos s1).1.(MockServer.ETag).
Proof.
  intros rs1 rs2 s1.
  assert (MockServer.Put "1" "completed" ∈ rs2) as Hin
    by (apply list_elem_of_further, list_elem_of_here).
  split; [exact Hin|].
  exact (server_put_retires_etag rs1 rs2 "1" "completed" Hin).
Defined.

(** X16: completing the todo that a POST has just added. *)
Lemma server_put_updates_one_todo_witness :
  let s := MockServer.serve [MockServer.Post "Write tests"]
             MockServer.initial in
  let t :=
    {| MockServer.id := "3"; MockServer.title := "Write tests";
       MockServer.status := "pending" |} in
  MockServer.todos s !! 2%nat = Some t ∧
  MockServer.id t = "3" ∧
  MockServer.todos (MockServer.putTodo "3" "completed" s).2 =
  <[2%nat := {| MockServer.id := "3"; MockServer.title := "Write tests";
                MockServer.status := "completed" |}]> (MockServer.todos s).
Proof.
  intros s t.
  assert (MockServer.todos s !! 2%nat = Some t) as Ht
    by (vm_compute; reflexivity).
  split; [exact Ht|]. split; [reflexivity|].
  exact (server_put_updates_one_todo [MockServer.Post "Write tests"]
           "3" "completed" 2 t Ht eq_refl).
Defined.

(** X21: the first todo is completed and then set back to pending. *)
Lemma server_put_back_restores_todos_not_etag_witness :
  let s := MockServer.serve [] MockServer.initial in
  let t :=
    {| MockServer.id := "1"; MockServer.title := "Learn RTK Query";
       MockServer.status := "pending" |} in
  let s1 := (MockServer.putTodo "1" "completed" s).2 in
  let s2 := (MockServer.putTodo "1" "pending" s1).2 in
  MockServer.todos s !! 0%nat = Some t ∧
  MockServer.todos s2 = MockServer.todos s ∧
  MockServer.currentEtag s2 ≠ MockServer.currentEtag s ∧
  MockServer.currentEtag s2 ≠ MockServer.currentEtag s1.
Proof.
  intros s t s1 s2. split; [reflexivity|].
  exact (server_put_back_restores_todos_not_etag [] "completed" 0 t eq_refl).
Defined.

(** X17: a PUT for the id ["99"] on the initial database. *)
Lemma server_put_unknown_id_witness :
  let s := MockServer.serve [] MockServer.initial in
  Forall (λ t, MockServer.id t ≠ "99") (MockServer.todos s) ∧
  let '(res, s') := MockServer.putTodo "99" "completed" s in
  MockServer.todos s' = MockServer.todos s ∧
  MockServer.statusCode res = 200 ∧
  MockServer.body res = MockServer.JsonSuccess true ∧
  MockServer.ETag res ≠ MockServer.currentEtag s.
Proof.
  intros s.
  assert (Forall (λ t, MockServer.id t ≠ "99") (MockServer.todos s))
    as Hids by (repeat constructor; discriminate).
  split; [exact Hids|].
  exact (server_put_unknown_id [] "99" "completed" Hids).
Defined.

(** X19: the first todo is completed after the first fetch. *)
Lemma app_status_update_stops_polling_witness :
  let w : @world TodosApi.Todo unit (list string) :=
    {| cache :=
         {[ "Todos.global" :=
              {| etag := Some "etag-1"; poll := false; retry := 0 |} ]};
       now := 0; timers := []; trace := [] |} in
  let s1 := MockServer.serve [] MockServer.initial in
  let rs2 := [MockServer.Put "1" "completed"] in
  let s2 := MockServer.serve rs2 s1 in
  let header := MockServer.ETag (MockServer.getTodos s2).1 in
  MockServer.Put "1" "completed" ∈ rs2 ∧
  (∀ m, cache w !! "Todos.global" ≫= etag = Some m →
        m = MockServer.currentEtag s1) ∧
  TodosApi.getTodos_onQueryStarted mockApi ()
    (Some (TodosApi.metaEtag (Some header)))
    (TodosApi.mutation_onQueryStarted mockApi true w) =
  terminated (TodosApi.todosCacher mockApi) "global" header w.
Proof.
  intros w s1 rs2 s2 header.
  assert (MockServer.Put "1" "completed" ∈ rs2) as Hin
    by apply list_elem_of_here.
  assert (∀ m, cache w !! "Todos.global" ≫= etag = Some m →
               m = MockServer.currentEtag s1) as Hold
    by (intros m [= <-]; reflexivity).
  split; [exact Hin|]. split; [exact Hold|].
  exact (app_status_update_stops_polling mockApi [] rs2 "1" "completed" ()
           w Hin Hold).
Defined.

(** X20: a todo is added after the first fetch; the refetch comes 500
    later. *)
Lemma app_add_todo_keeps_polling_witness :
  let e := {| etag := Some "etag-1"; poll := false; retry := 0 |} in
  let w : @world TodosApi.Todo unit (list string) :=
    {| cache := {[ "Todos.global" := e ]};
       now := 0; timers := []; trace := [] |} in
  let s := MockServer.serve [] MockServer.initial in
  let s' := MockServer.tick 500 (MockServer.postTodo "Write tests" s).2 in
  let header := MockServer.ETag (MockServer.getTodos s').1 in
  let w' :=
    TodosApi.getTodos_onQueryStarted mockApi ()
      (Some (TodosApi.metaEtag (Some header)))
      (TodosApi.mutation_onQueryStarted mockApi true w) in
  cache w !! "Todos.global" = Some e ∧
  etag e = Some (MockServer.currentEtag s) ∧
  500 < 2000 ∧
  Forall (λ due, MockServer.clock s + 500 < due) (MockServer.scheduled s) ∧
  cache w' !! "Todos.global" =
    Some {| etag := Some "etag-1"; poll := true; retry := 1 |} ∧
  timers w' =
    insert_timer
      (now w + 1000,
       {| cb_dispatch := (); cb_this := TodosApi.todosCacher mockApi |})
      (timers w) ∧
  trace w' = trace w.
Proof.
  intros e w s s' header w'.
  assert (500 < 2000) as Hdt by reflexivity.
  assert (Forall (λ due, MockServer.clock s + 500 < due)
            (MockServer.scheduled s)) as Hsched by constructor.
  split; [reflexivity|]. split; [reflexivity|]. split; [exact Hdt|].
  split; [exact Hsched|].
  exact (app_add_todo_keeps_polling mockApi [] "Write tests" 500 () w e
           eq_refl eq_refl Hdt Hsched).
Defined.

End EtagCacher.